(** * epydemic: the SEIR compartmented model and the Monitor process

    A shallow embedding of [epydemic/seir_model.py] (class [SEIR]) and of
    [epydemic/monitor.py] (class [Monitor]).

    Both classes are thin layers over the framework classes
    [CompartmentedModel] and [Process], which keep the compartments, the
    loci, the posted events and the network.  The framework state is a
    record, its operations are state transformers, and Python's exceptions
    are an outcome next to the state: a [raise] leaves every mutation made
    so far in place.

    Numbers (probabilities, simulation times) are the finite numbers of
    Python's [float], binary64, carried as rationals [Q]; the one arithmetic
    operation of the two files, the subtraction in [SEIR.build], rounds as
    binary64 does (module [Binary64]).  Infinities and NaN are left out. *)

From Stdlib Require Import QArith Qround Qabs Qpower Lqa Lia SpecFloat.
From stdpp Require Import gmap strings list fin_maps.

#[local] Open Scope string_scope.
#[local] Open Scope list_scope.

(** ** Exceptions and the state-and-exception monad *)

(** The exceptions of a failed subscript: [KeyError] for a key that a
    dictionary lacks ([params[k]], [self._timeSeries[l]], [self[l]]) and
    [TypeError] for a subscript on [None]. *)
Inductive exn : Type :=
| KeyError (k : string)
| TypeError (msg : string).

Inductive outcome (A : Type) : Type :=
| Returned (a : A)
| Raised (e : exn).
Arguments Returned {A} a.
Arguments Raised {A} e.

Definition M (S A : Type) : Type := S → outcome A * S.

Definition ret {S A} (a : A) : M S A := λ s, (Returned a, s).

Definition bind {S A B} (m : M S A) (k : A → M S B) : M S B :=
  λ s, match m s with
       | (Returned a, s') => k a s'
       | (Raised e, s') => (Raised e, s')
       end.

Definition raise {S A} (e : exn) : M S A := λ s, (Raised e, s).
Definition gets {S A} (f : S → A) : M S A := λ s, (Returned (f s), s).
Definition modify {S} (f : S → S) : M S unit := λ s, (Returned tt, f s).

Notation "x <- m ; k" := (bind m (λ x, k))
  (at level 100, m at next level, right associativity,
   format "'[v' x  <-  m ; '/' k ']'").
Notation "m ;; k" := (bind m (λ _, k))
  (at level 100, right associativity, format "'[v' m  ;; '/' k ']'").

(** [for x in xs: body(x)] *)
Fixpoint forM_ {S A} (xs : list A) (body : A → M S unit) : M S unit :=
  match xs with
  | [] => ret tt
  | x :: xs' => body x ;; forM_ xs' body
  end.

(** [d[k]] on a dictionary read out of the state: [KeyError] when absent. *)
Definition getitem {S V} (d : gmap string V) (k : string) : M S V :=
  match d !! k with
  | Some v => ret v
  | None => raise (KeyError k)
  end.

(** Run a computation of a component inside a larger state. *)
Definition lift {S T A} (proj : T → S) (upd : S → T → T) (m : M S A) : M T A :=
  λ t, let '(r, s') := m (proj t) in (r, upd s' t).

(** ** Binary64 arithmetic *)

(** Python's [float] is IEEE 754 binary64: 53 bits of precision, the least
    exponent of a unit in the last place -1074, every operation rounded to
    the nearest number, ties to the even one.  A result too large for the
    format (an infinity in Python) is not modelled: no operation of the two
    files on numbers in the range of a probability gets there. *)
Module Binary64.

Definition pow2 (e : Z) : Q := (2 ^ e)%Q.

(** The exponent of the leading bit of a positive number:
    [pow2 (ilog2 x) <= x < pow2 (ilog2 x + 1)]. *)
Definition ilog2 (x : Q) : Z :=
  let g := (Z.log2 (Qnum x) - Z.log2 (Zpos (Qden x)))%Z in
  if Qle_bool (pow2 g) x then g else (g - 1)%Z.

(** The nearest integer, a tie going to the even one. *)
Definition rne (y : Q) : Z :=
  let f := Qfloor y in
  match (y - inject_Z f ?= 1 # 2)%Q with
  | Lt => f
  | Gt => (f + 1)%Z
  | Eq => if Z.even f then f else (f + 1)%Z
  end.

(** The exponent of the unit in the last place at [x]: 52 places below the
    leading bit, and -1074 for the subnormal numbers. *)
Definition lsb (x : Q) : Z := Z.max (ilog2 (Qabs x) - 52) (-1074).

(** The binary64 number nearest to [x], in lowest terms. *)
Definition round64 (x : Q) : Q :=
  let x := Qred x in
  if Qeq_bool x 0 then 0%Q
  else Qred (inject_Z (rne (x / pow2 (lsb x))) * pow2 (lsb x)).

(** [x - y] and [x + y] on floats. *)
Definition fsub (x y : Q) : Q := round64 (x - y).
Definition fadd (x y : Q) : Q := round64 (x + y).

(** The binary64 numbers of the Standard Library ([SpecFloat], precision 53
    and [emax] 1024) as rationals, and a rational with a power of two for
    its denominator as the nearest of them, by the library's own rounding:
    the reference that [round64], [fsub] and [fadd] are compared with. *)
Definition ofSpecFloat (f : spec_float) : option Q :=
  match f with
  | S754_zero _ => Some 0%Q
  | S754_finite s m e =>
      Some (Qred ((if s then - (1) else 1) * inject_Z (Zpos m) * pow2 e))
  | S754_infinity _ | S754_nan => None
  end.

Definition toSpecFloat (x : Q) : spec_float :=
  binary_normalize 53 1024 (Qnum (Qred x))
    (- Z.log2 (Zpos (Qden (Qred x)))) false.

End Binary64.

Arguments Binary64.round64 : simpl never.
Arguments Binary64.fsub : simpl never.
Arguments Binary64.fadd : simpl never.

(** ** The framework state *)

Definition node : Type := nat.
Definition edge : Type := (node * node)%type.

(** An element handed to an event handler: a node, or an edge as a pair. *)
Inductive element : Type :=
| ENode (n : node)
| EEdge (e : edge).

(** The bound methods that the two classes register as event handlers. *)
Inductive handler : Type :=
| h_infectAsymptomatic
| h_infect
| h_symptoms
| h_remove
| h_observe.

(** Modelled from the spec: a locus is "a named dynamic set of nodes or
    edges satisfying a compartment predicate"; the framework's locus classes
    are missing, so a locus is the predicate it was registered with. *)
Inductive locus : Type :=
| NodeLocus (c : string)
| EdgeLocus (l r : string).

(** Modelled from the spec: the scheduler's repeating event, "a repeating
    event at an absolute time with a handler taking (time, element)"; the
    scheduler is missing.  The record has no expiry. *)
Record repeating : Type := Repeating {
  start : Q;
  period : Q;
  target : option element;
  action : handler
}.

(** Modelled from the spec: the state kept by the framework classes
    [Process] and [CompartmentedModel] (both missing): the compartments with
    their initial occupancy probabilities, the loci by name, the per-element
    event rules, the posted repeating events, the network's edges, every
    node's compartment label and the occupied edges with their times
    (under the key of the edge, [edgeKey]). *)
Record Process : Type := mkProcess {
  compartments : list (string * Q);
  loci : gmap string locus;
  perElementEvents : list (string * Q * handler);
  repeatingEvents : list repeating;
  edges : list edge;
  compartmentOf : gmap node string;
  occupied : gmap edge Q
}.

(** A framework state with nothing registered and an empty network. *)
Definition emptyProcess : Process :=
  mkProcess [] ∅ [] [] [] ∅ ∅.

(** The parameter dictionary of an experiment. *)
Abbreviation Params := (gmap string Q).

Module Framework.

(** Modelled from the spec: "register a compartment with an initial
    occupancy probability" ([CompartmentedModel.addCompartment]). *)
Definition addCompartment (c : string) (p : Q) : M Process unit :=
  modify (λ s, mkProcess (compartments s ++ [(c, p)]) (loci s)
                 (perElementEvents s) (repeatingEvents s) (edges s)
                 (compartmentOf s) (occupied s)).

(** Modelled from the spec: a locus is "a named dynamic collection", kept
    under its name.  The spec has no sentence for a name that is taken
    already; here the later registration takes the name. *)
Definition setLocus (name : string) (L : locus) : M Process unit :=
  modify (λ s, mkProcess (compartments s) (<[name := L]> (loci s))
                 (perElementEvents s) (repeatingEvents s) (edges s)
                 (compartmentOf s) (occupied s)).

(** Modelled from the spec: "register a dynamic locus keyed by a predicate
    over one or two compartments (node- or edge-shaped)"
    ([CompartmentedModel.trackEdgesBetweenCompartments] and
    [trackNodesInCompartment]); the node locus of a compartment goes by the
    compartment's name. *)
Definition trackEdgesBetweenCompartments (l r name : string) : M Process unit :=
  setLocus name (EdgeLocus l r).

(** Modelled from the spec: the node locus of "all nodes currently" in
    compartment [c] ([CompartmentedModel.trackNodesInCompartment]); it goes
    by the compartment's name, the name under which [SEIR.build] binds its
    node events. *)
Definition trackNodesInCompartment (c : string) : M Process unit :=
  setLocus c (NodeLocus c).

(** Modelled from the spec: "register a per-element stochastic event bound
    to a locus, a probability, and a handler"
    ([Process.addEventPerElement]). *)
Definition addEventPerElement (l : string) (p : Q) (h : handler) : M Process unit :=
  modify (λ s, mkProcess (compartments s) (loci s)
                 (perElementEvents s ++ [(l, p, h)]) (repeatingEvents s)
                 (edges s) (compartmentOf s) (occupied s)).

(** Modelled from the spec: "schedule a repeating event at an absolute
    time with a handler taking (time, element)"
    ([Process.postRepeatingEvent]). *)
Definition postRepeatingEvent (t dt : Q) (e : option element) (h : handler)
  : M Process unit :=
  modify (λ s, mkProcess (compartments s) (loci s) (perElementEvents s)
                 (repeatingEvents s ++ [Repeating t dt e h]) (edges s)
                 (compartmentOf s) (occupied s)).

(** Modelled from the spec: "change a node's compartment": the operation
    "updates the node's compartment label"; the loci are predicates over
    the labels, so their contents follow
    ([CompartmentedModel.changeCompartment]). *)
Definition changeCompartment (n : node) (c : string) : M Process unit :=
  modify (λ s, mkProcess (compartments s) (loci s) (perElementEvents s)
                 (repeatingEvents s) (edges s)
                 (<[n := c]> (compartmentOf s)) (occupied s)).

(** Modelled from the spec: an edge is a "pair of node identities, owned
    by the network"; the network keeps each edge once, and [(n, m)] and
    [(m, n)] name the same edge. *)
Definition isEdge (s : Process) (e : edge) : bool :=
  bool_decide (e ∈ edges s) || bool_decide ((e.2, e.1) ∈ edges s).

(** The key of an edge in [occupied]: the same for both ways round. *)
Definition edgeKey (e : edge) : edge := (Nat.min e.1 e.2, Nat.max e.1 e.2).

(** Modelled from the spec: "mark an edge as occupied at a given time"
    ([CompartmentedModel.markOccupied]).  Occupied is a fact that the edge
    carries ("has this edge been used to transmit infection, and at what
    time"): there is one mark for an edge, whichever way round the pair
    names it, and a later mark replaces an earlier one; a pair that is no
    edge of the network has nothing to carry the mark, and the call
    raises. *)
Definition markOccupied (e : edge) (t : Q) : M Process unit :=
  λ s, if isEdge s e
       then (Returned tt,
             mkProcess (compartments s) (loci s) (perElementEvents s)
               (repeatingEvents s) (edges s) (compartmentOf s)
               (<[edgeKey e := t]> (occupied s)))
       else (Raised
               (TypeError "'NoneType' object does not support item assignment"),
             s).

(** Modelled from the spec: the "queryable fact" whether an edge is
    occupied, and at what time. *)
Definition occupiedAt (s : Process) (e : edge) : option Q :=
  occupied s !! edgeKey e.

(** Modelled from the spec: the locus between [l] and [r] holds the "edges
    with endpoints {l, r}".  It hands an edge out as a pair with the
    endpoint in [l] first: the order in which [SEIR.build] names the two
    compartments, and the endpoint that [SEIR.infect] takes from the pair. *)
Definition towards (s : Process) (l r : string) (e : edge) : option edge :=
  let a := compartmentOf s !! e.1 in
  let b := compartmentOf s !! e.2 in
  if bool_decide (a = Some l) && bool_decide (b = Some r) then Some e
  else if bool_decide (b = Some l) && bool_decide (a = Some r)
       then Some (e.2, e.1)
       else None.

(** Modelled from the spec: a node of the locus of [c] is one of the
    "nodes currently" in compartment [c]. *)
Definition inCompartment (c : string) (nc : node * string) : bool :=
  bool_decide (nc.2 = c).

(** Modelled from the spec: the contents of a locus, "a named dynamic set
    of nodes or edges satisfying a compartment predicate": they are read
    off the compartment labels, so that "a locus's membership is always
    consistent with current compartment assignment". *)
Definition locusElements (s : Process) (L : locus) : list element :=
  match L with
  | NodeLocus c =>
      (λ nc : node * string, ENode nc.1)
        <$> List.filter (inCompartment c) (map_to_list (compartmentOf s))
  | EdgeLocus l r => EEdge <$> omap (towards s l r) (edges s)
  end.

(** Modelled from the spec: "iterate tracked locus names and query a
    locus's size/contents by name" ([Process.__iter__],
    [Process.__getitem__] and the locus's [__len__]).  Every name comes
    once, in the order of the map. *)
Definition locusNames (s : Process) : list string :=
  (map_to_list (loci s)).*1.

(** Modelled from the spec: the "size query" of a locus, [len(locus)]. *)
Definition locusLen (s : Process) (L : locus) : nat :=
  length (locusElements s L).

(** Modelled from the spec: the k-th firing time of a repeating event
    "starting at simulated time" [start], "recurring every" [period]
    "simulated time units, for the remaining duration of the run": the
    times of the spec's schedule, not rounded (the scheduler that adds
    them up is missing). *)
Definition firingTime (r : repeating) (k : nat) : Q :=
  start r + inject_Z (Z.of_nat k) * period r.

End Framework.

(** ** [class SEIR(CompartmentedModel)] *)

Module SEIR.
Import Framework.

(** Model parameters *)
Definition P_EXPOSED : string := "epydemic.SEIR.pExposed".
Definition P_INFECT_ASYMPTOMATIC : string := "epydemic.SEIR.pInfectA".
Definition P_INFECT_SYMPTOMATIC : string := "epydemic.SEIR.pInfect".
Definition P_SYMPTOMS : string := "epydemic.SEIR.pSymptoms".
Definition P_REMOVE : string := "epydemic.SEIR.pRemove".

(** Possible dynamics states of a node *)
Definition SUSCEPTIBLE : string := "epydemic.SEIR.S".
Definition EXPOSED : string := "epydemic.SEIR.E".
Definition INFECTED : string := "epydemic.SEIR.I".
Definition REMOVED : string := "epydemic.SEIR.R".

(** Loci containing the edges at which dynamics can occur *)
Definition SE : string := "epydemic.SEIR.SE".
Definition SI : string := "epydemic.SEIR.SI".

(** [infect(self, t, e)] *)
Definition infect (t : Q) (e : edge) : M Process unit :=
  let '(n, _) := e in
  changeCompartment n EXPOSED ;;
  markOccupied e t.

Section Methods.

(** [super(SEIR, self).build], the build of [CompartmentedModel], which is
    not part of the two files: any computation on the framework state. *)
Variable CompartmentedModel_build : Params → M Process unit.

(** [self.infect], as the object at hand resolves it: a sub-class may
    override [infect]. *)
Variable self_infect : Q → edge → M Process unit.

(** [build(self, params)] *)
Definition build_with (params : Params) : M Process unit :=
  CompartmentedModel_build params ;;
  pExposed <- getitem params P_EXPOSED ;
  pInfectA <- getitem params P_INFECT_ASYMPTOMATIC ;
  pInfect <- getitem params P_INFECT_SYMPTOMATIC ;
  pSymptoms <- getitem params P_SYMPTOMS ;
  pRemove <- getitem params P_REMOVE ;
  addCompartment SUSCEPTIBLE (Binary64.fsub 1 pExposed) ;;
  addCompartment EXPOSED pExposed ;;
  addCompartment INFECTED 0 ;;
  addCompartment REMOVED 0 ;;
  trackEdgesBetweenCompartments SUSCEPTIBLE EXPOSED SE ;;
  trackEdgesBetweenCompartments SUSCEPTIBLE INFECTED SI ;;
  trackNodesInCompartment EXPOSED ;;
  trackNodesInCompartment INFECTED ;;
  addEventPerElement SE pInfectA h_infectAsymptomatic ;;
  addEventPerElement SI pInfect h_infect ;;
  addEventPerElement EXPOSED pSymptoms h_symptoms ;;
  addEventPerElement INFECTED pRemove h_remove.

(** [infectAsymptomatic(self, t, e)] *)
Definition infectAsymptomatic_with (t : Q) (e : edge) : M Process unit :=
  self_infect t e.

End Methods.

(** The methods of an object of class [SEIR] itself: [self.infect] is
    [SEIR.infect]. *)
Definition infectAsymptomatic : Q → edge → M Process unit :=
  infectAsymptomatic_with infect.

(** [symptoms(self, t, n)] *)
Definition symptoms (t : Q) (n : node) : M Process unit :=
  changeCompartment n INFECTED.

(** [remove(self, t, n)] *)
Definition remove (t : Q) (n : node) : M Process unit :=
  changeCompartment n REMOVED.

(** Modelled from the spec: a parent build that registers nothing of its
    own and accepts every parameter dictionary ("all probabilities
    validated by the host"). *)
Definition plainBuild (params : Params) : M Process unit := ret tt.

(** [build] of an object whose parent build is the plain one. *)
Definition build : Params → M Process unit := build_with plainBuild.

End SEIR.

(** ** [class Monitor(Process)] *)

Module Monitor.
Import Framework.

(** Experimental parameters *)
Definition DELTA : string := "time_delta".

(** Results *)
Definition OBSERVATIONS : string := "loci_observations".
Definition TIMESERIES : string := "loci_timeseries".

(** An entry of a sequence of the time series: [observe] appends the
    observation time [t] to one list and [len(self[l])] to the others. *)
Inductive sample : Type :=
| Time (t : Q)
| Size (n : nat).

(** The values found in a results dictionary. *)
Inductive value : Type :=
| VNone
| VNumber (q : Q)
| VString (s : string)
| VSeries (ts : gmap string (list sample)).

(** A [Monitor] object: the state of its [Process] part and the attribute
    [_timeSeries], [None] or a dictionary of lists. *)
Record state : Type := mkMonitor {
  process : Process;
  _timeSeries : option (gmap string (list sample))
}.

(** A method of the framework, run on the [Process] part of the object. *)
Definition inProcess {A} (m : M Process A) : M state A :=
  lift process (λ p s, mkMonitor p (_timeSeries s)) m.

(** [self._timeSeries = v] *)
Definition setTimeSeries (v : option (gmap string (list sample))) : M state unit :=
  modify (λ s, mkMonitor (process s) v).

(** [self._timeSeries[k]] *)
Definition getSeries (k : string) : M state (list sample) :=
  cur <- gets _timeSeries ;
  match cur with
  | Some ts => getitem ts k
  | None => raise (TypeError "'NoneType' object is not subscriptable")
  end.

(** [self._timeSeries[k] = xs]; also the effect of an [append] on the list
    found under [k], with [xs] the extended list. *)
Definition setSeries (k : string) (xs : list sample) : M state unit :=
  cur <- gets _timeSeries ;
  match cur with
  | Some ts => setTimeSeries (Some (<[k := xs]> ts))
  | None => raise (TypeError "'NoneType' object does not support item assignment")
  end.

(** [self._timeSeries[k].append(x)] once [x] is evaluated. *)
Definition appendSeries (k : string) (x : sample) : M state unit :=
  xs <- getSeries k ;
  setSeries k (xs ++ [x]).

(** [for l in self] *)
Definition iterLoci : M state (list string) :=
  gets (λ s, locusNames (process s)).

(** [len(self[l])] *)
Definition lenLocus (l : string) : M state nat :=
  p <- gets process ;
  L <- getitem (loci p) l ;
  ret (locusLen p L).

Definition valueOfTimeSeries (v : option (gmap string (list sample))) : value :=
  match v with
  | Some ts => VSeries ts
  | None => VNone
  end.

Section Methods.

(** The methods of the parent class [Process], which is not part of the two
    files: any computations on the [Process] part of the object. *)
Variable Process_reset : M Process unit.
Variable Process_build : Params → M Process unit.
Variable Process_results : M Process (gmap string value).

(** [reset(self)] *)
Definition reset_with : M state unit :=
  inProcess Process_reset ;;
  setTimeSeries None.

(** [build(self, params)] *)
Definition build_with (params : Params) : M state unit :=
  inProcess (Process_build params) ;;
  delta <- getitem params DELTA ;
  inProcess (postRepeatingEvent 0 delta None h_observe).

(** [results(self)]: the dictionary [rc] of the parent gets one more
    item, the attribute [_timeSeries] as it is at the time of the call. *)
Definition results_with : M state (gmap string value) :=
  rc <- inProcess Process_results ;
  cur <- gets _timeSeries ;
  ret (<[TIMESERIES := valueOfTimeSeries cur]> rc).

End Methods.

(** The body of the second loop of [observe],
    [self._timeSeries[l].append(len(self[l]))]: the list is looked up
    first, then the argument is evaluated, then the list is extended. *)
Definition sampleLocus (l : string) : M state unit :=
  xs <- getSeries l ;
  n <- lenLocus l ;
  setSeries l (xs ++ [Size n]).

(** [observe(self, t, e)] *)
Definition observe (t : Q) (e : option element) : M state unit :=
  cur <- gets _timeSeries ;
  match cur with
  | None =>
      setTimeSeries (Some ∅) ;;
      setSeries OBSERVATIONS [] ;;
      names <- iterLoci ;
      forM_ names (λ l, setSeries l [])
  | Some _ => ret tt
  end ;;
  appendSeries OBSERVATIONS (Time t) ;;
  names <- iterLoci ;
  forM_ names sampleLocus.

(** Modelled from the spec: a parent [Process] that does nothing on [reset]
    and [build] and whose [results] is the dictionary [rc] of the other
    contributors of the run. *)
Definition plainReset : M Process unit := ret tt.
Definition plainBuild (params : Params) : M Process unit := ret tt.
Definition plainResults (rc : gmap string value) : M Process (gmap string value) :=
  ret rc.

(** The methods of an object whose parent is the plain one, with no
    other contributor to the results. *)
Definition reset : M state unit := reset_with plainReset.
Definition build : Params → M state unit := build_with plainBuild.
Definition results : M state (gmap string value) :=
  results_with (plainResults ∅).

(** Modelled from the spec: the scheduler fires the repeating event one
    observation after the other; in between "the disease model's stochastic
    events" run, so each observation at time [t] meets a framework state [p]
    of its own. *)
Fixpoint observations (obs : list (Q * Process)) : M state unit :=
  match obs with
  | [] => ret tt
  | (t, p) :: rest =>
      modify (λ s, mkMonitor p (_timeSeries s)) ;;
      observe t None ;;
      observations rest
  end.

End Monitor.

(** ** Vocabulary of the properties *)

Module Props.
Import Framework.

(** The sum of the initial occupancy probabilities of a list of
    compartments, added up on floats from 0.0 in the order of
    registration. *)
Definition totalProbability (cs : list (string * Q)) : Q :=
  foldl (λ acc c, Binary64.fadd acc c.2) 0%Q cs.

(** [s'] has the registrations, the posted events and the network of [s]. *)
Definition sameSetup (s s' : Process) : Prop :=
  compartments s' = compartments s
  ∧ loci s' = loci s
  ∧ perElementEvents s' = perElementEvents s
  ∧ repeatingEvents s' = repeatingEvents s
  ∧ edges s' = edges s.

(** [s'] differs from [s] at most in the compartment label of node [n]. *)
Definition sameExceptNode (n : node) (s s' : Process) : Prop :=
  sameSetup s s'
  ∧ occupied s' = occupied s
  ∧ delete n (compartmentOf s') = delete n (compartmentOf s).


(** The compartments, the loci and the event rules of the SEIR model. *)
Definition seirCompartments (pExposed : Q) : list (string * Q) :=
  [(SEIR.SUSCEPTIBLE, Binary64.fsub 1 pExposed); (SEIR.EXPOSED, pExposed);
   (SEIR.INFECTED, 0); (SEIR.REMOVED, 0)]%Q.

Definition seirLoci : list (string * locus) :=
  [(SEIR.SE, EdgeLocus SEIR.SUSCEPTIBLE SEIR.EXPOSED);
   (SEIR.SI, EdgeLocus SEIR.SUSCEPTIBLE SEIR.INFECTED);
   (SEIR.EXPOSED, NodeLocus SEIR.EXPOSED);
   (SEIR.INFECTED, NodeLocus SEIR.INFECTED)].

Definition seirEvents (pInfectA pInfect pSymptoms pRemove : Q)
  : list (string * Q * handler) :=
  [(SEIR.SE, pInfectA, h_infectAsymptomatic);
   (SEIR.SI, pInfect, h_infect);
   (SEIR.EXPOSED, pSymptoms, h_symptoms);
   (SEIR.INFECTED, pRemove, h_remove)].

(** An edge is delivered from the locus registered under [name]. *)
Definition deliveredFrom (s : Process) (name : string) (e : edge) : Prop :=
  ∃ L, loci s !! name = Some L ∧ EEdge e ∈ locusElements s L.

(** A network of two adjacent nodes, node 1 infected and node 2
    susceptible, under a built SEIR model. *)
Definition seirParams : Params :=
  list_to_map
    [(SEIR.P_EXPOSED, 1 # 4); (SEIR.P_INFECT_ASYMPTOMATIC, 1);
     (SEIR.P_INFECT_SYMPTOMATIC, 1); (SEIR.P_SYMPTOMS, 1);
     (SEIR.P_REMOVE, 1)]%Q.

Definition twoNodes : Process :=
  mkProcess [] ∅ [] [] [(1, 2)%nat]
    (<[1%nat := SEIR.INFECTED]> (<[2%nat := SEIR.SUSCEPTIBLE]> ∅)) ∅.

Definition builtTwoNodes : Process := (SEIR.build seirParams twoNodes).2.


(** The same network after node 2 got exposed over the edge, delivered
    as (2, 1). *)
Definition afterInfection : Process :=
  (SEIR.infect 0 (2, 1)%nat builtTwoNodes).2.

(** The size of the locus registered under [l], as [observe] samples it. *)
Definition sizeOf (p : Process) (l : string) : nat :=
  match loci p !! l with
  | Some L => locusLen p L
  | None => 0%nat
  end.

(** Every observation of [obs] meets the tracked loci [names]. *)
Definition sameLoci (names : gset string) (obs : list (Q * Process)) : Prop :=
  Forall (λ o, dom (loci o.2) = names) obs.

(** Every sequence of the time-series store has length [N]. *)
Definition lockstep (N : nat) (v : option (gmap string (list Monitor.sample)))
  : Prop :=
  ∀ ts k xs, v = Some ts → ts !! k = Some xs → length xs = N.

(** The store holds the observations [obs] and nothing else: no store
    before the first observation; afterwards the observation times under
    [OBSERVATIONS] and, under each locus of [names], the sizes of that locus
    at the same observations, in order. *)
Definition recorded (names : gset string) (obs : list (Q * Process))
    (v : option (gmap string (list Monitor.sample))) : Prop :=
  match obs with
  | [] => v = None
  | _ :: _ =>
      ∃ ts, v = Some ts
            ∧ dom ts = {[Monitor.OBSERVATIONS]} ∪ names
            ∧ ts !! Monitor.OBSERVATIONS = Some (Monitor.Time <$> obs.*1)
            ∧ ∀ l, l ∈ names →
                ts !! l = Some ((λ o, Monitor.Size (sizeOf o.2 l)) <$> obs)
  end.

(** The reading of [Monitor.build] in which a non-positive [time_delta] is
    refused. *)
Definition buildRejectsNonPositiveDelta (params : Params) (s : Monitor.state)
  : Prop :=
  ∀ delta, params !! Monitor.DELTA = Some delta → (delta <= 0)%Q →
    ∃ e s', Monitor.build params s = (Raised e, s').

(** The reading of [Monitor.observe] in which the sequences are in
    lock-step whatever the loci are called. *)
Definition observationsKeepLockstep (obs : list (Q * Process))
    (s : Monitor.state) : Prop :=
  ∀ names, sameLoci names obs → Monitor._timeSeries s = None →
    ∃ s', Monitor.observations obs s = (Returned tt, s')
          ∧ lockstep (length obs) (Monitor._timeSeries s').

(** A monitor that has just been reset. *)
Definition freshMonitor : Monitor.state :=
  (Monitor.reset (Monitor.mkMonitor emptyProcess None)).2.

(** The two-node model with one more tracked locus, by the name of the
    observation-times key. *)
Definition clashingLocus : Process :=
  mkProcess (compartments builtTwoNodes)
    (<[Monitor.OBSERVATIONS := NodeLocus SEIR.SUSCEPTIBLE]> (loci builtTwoNodes))
    (perElementEvents builtTwoNodes) (repeatingEvents builtTwoNodes)
    (edges builtTwoNodes) (compartmentOf builtTwoNodes)
    (occupied builtTwoNodes).

(** The reading of [results] in which every entry of the parent's
    dictionary is in the dictionary returned. *)
Definition resultsKeepsParentEntries
    (parent : M Process (gmap string Monitor.value)) (s : Monitor.state)
  : Prop :=
  ∀ rc0 p1, parent (Monitor.process s) = (Returned rc0, p1) →
    ∃ rc s', Monitor.results_with parent s = (Returned rc, s') ∧ rc0 ⊆ rc.

(** A monitor on the two-node model after one observation at time 0. *)
Definition observedOnce : Monitor.state :=
  (Monitor.observe 0 None (Monitor.mkMonitor builtTwoNodes None)).2.

(** The parameters of the SEIR model, in the order in which [build] reads
    them. *)
Definition seirParameters : list string :=
  [SEIR.P_EXPOSED; SEIR.P_INFECT_ASYMPTOMATIC; SEIR.P_INFECT_SYMPTOMATIC;
   SEIR.P_SYMPTOMS; SEIR.P_REMOVE].

(** The first of the names [keys] that the dictionary [params] lacks. *)
Definition firstMissing (params : Params) (keys : list string) : option string :=
  List.find (λ k, match params !! k with Some _ => false | None => true end)
    keys.

(** [q] is a probability. *)
Definition isProbability (q : Q) : Prop := (0 <= q)%Q ∧ (q <= 1)%Q.

(** The reading of [SEIR.build] in which the four initial probabilities sum
    to 1.0 for every parameter dictionary that holds the five parameters. *)
Definition buildSumsToOne (params : Params) (s : Process) : Prop :=
  Forall (λ k, is_Some (params !! k)) seirParameters →
  ∃ s' new, SEIR.build params s = (Returned tt, s')
            ∧ compartments s' = compartments s ++ new
            ∧ length new = 4%nat
            ∧ (totalProbability new == 1)%Q.

(** The parameters of the two-node model with 1e17, a binary64 number, for
    [pExposed]. *)
Definition hugeExposed : Params :=
  <[SEIR.P_EXPOSED := (10 ^ 17)%Q]> seirParams.

(** Pairs of binary64 numbers to subtract and to add, and numbers to round:
    exact results, ties, subnormal numbers, both signs. *)
Definition floatPairs : list (Q * Q) :=
  [(1, 10 ^ 17); (1, 1 # 4); (1, 1); (1, 0); (1, 2 ^ (-54)); (1, 2 ^ (-53));
   (1, 3 * 2 ^ (-55)); (1, 2 ^ (-1074)); (3 * 2 ^ (-1074), 2 ^ (-1074));
   (1, - (1)); (1, 2 ^ 53); (1, 2 ^ 53 + 2); (1, 2 ^ 54 + 4);
   (1, 1 - 2 ^ (-53)); (1, 7 # 8); (2 ^ (-1022), 2 ^ (-1074)); (1, 2 ^ 1023);
   (1, 5404319552844595 # 18014398509481984)]%Q.

Definition dyadicNumbers : list Q :=
  [1 - 10 ^ 17; 2 ^ 54 - 1; 3 * 2 ^ (-1076); 2 ^ (-1075); 3 * 2 ^ (-1075);
   (2 ^ 54 + 1) * 2 ^ (-1076); (2 ^ 53 + 1) * 2 ^ (-1000);
   (2 ^ 53 + 3) * 2 ^ (-1000); - (2 ^ 53 + 3) * 2 ^ (-1000);
   (2 ^ 54 - 1) * 2 ^ (-60); 1 # 1024; 12345678901234567890123; 0]%Q.

(** [op] on floats gives on [x] and [y] what [ref] gives in the Standard
    Library's binary64. *)
Definition agreesOn (op : Q → Q → Q)
    (ref : spec_float → spec_float → spec_float) (xy : Q * Q) : bool :=
  match Binary64.ofSpecFloat
          (ref (Binary64.toSpecFloat xy.1) (Binary64.toSpecFloat xy.2)) with
  | Some r => Qeq_bool r (op xy.1 xy.2)
  | None => false
  end.

End Props.

(** ** Properties of the binary64 rounding *)

Section Binary64_properties.
Import Binary64 Props.
#[local] Open Scope Q_scope.

Lemma pow2_pos (e : Z) : 0 < pow2 e.
Proof. apply Qpower_0_lt. reflexivity. Qed.

Lemma pow2_plus (a b : Z) : pow2 (a + b) == pow2 a * pow2 b.
Proof. apply Qpower_plus. discriminate. Qed.

Lemma pow2_le (a b : Z) : (a ≤ b)%Z → pow2 a <= pow2 b.
Proof. intros H. apply Qpower_le_compat_l; [exact H | discriminate]. Qed.

Lemma pow2_lt (a b : Z) : (a < b)%Z → pow2 a < pow2 b.
Proof. intros H. apply Qpower_lt_compat_l; [exact H | reflexivity]. Qed.

Lemma pow2_lt_inv (a b : Z) : pow2 a < pow2 b → (a < b)%Z.
Proof. intros H. eapply Qpower_lt_compat_l_inv; [exact H | reflexivity]. Qed.

Lemma pow2_Z (n : Z) : (0 ≤ n)%Z → pow2 n == inject_Z (2 ^ n).
Proof. intros H. unfold pow2. by rewrite Zpower_Qpower. Qed.

Lemma pow2_opp (a : Z) : pow2 a * pow2 (- a) == 1.
Proof. rewrite <- pow2_plus. by rewrite Z.add_opp_diag_r. Qed.

Lemma ilog2_spec (x : Q) : 0 < x → pow2 (ilog2 x) <= x ∧ x < pow2 (ilog2 x + 1).
Proof.
  intros Hx. destruct x as [n d].
  assert (Hn : (0 < n)%Z).
  { unfold Qlt in Hx. simpl in Hx. lia. }
  pose proof (Z.log2_spec n Hn) as [Hn1 Hn2].
  pose proof (Z.log2_spec (Z.pos d) (Pos2Z.is_pos d)) as [Hd1 Hd2].
  pose proof (Z.log2_nonneg n) as Hln.
  pose proof (Z.log2_nonneg (Z.pos d)) as Hld.
  set (ln := Z.log2 n) in *. set (ld := Z.log2 (Z.pos d)) in *.
  rewrite Zle_Qle, <- pow2_Z in Hn1, Hd1 by lia.
  rewrite Zlt_Qlt, <- pow2_Z in Hn2, Hd2 by lia.
  replace (Z.succ ln) with (ln + 1)%Z in Hn2 by lia.
  replace (Z.succ ld) with (ld + 1)%Z in Hd2 by lia.
  assert (HD : 0 < inject_Z (Z.pos d)) by reflexivity.
  assert (Hx' : (n # d) * inject_Z (Z.pos d) == inject_Z n).
  { rewrite (Qmake_Qdiv n d). field. intros H. rewrite H in HD. discriminate. }
  assert (Hlo : pow2 (ln - ld - 1) <= n # d).
  { apply (Qmult_le_r _ _ (inject_Z (Z.pos d))); [exact HD |].
    rewrite Hx'. eapply Qle_trans; [| exact Hn1].
    replace ln with ((ln - ld - 1) + (ld + 1))%Z at 2 by lia.
    rewrite pow2_plus. apply Qmult_le_l; [apply pow2_pos |].
    by apply Qlt_le_weak. }
  assert (Hhi : n # d < pow2 (ln - ld + 1)).
  { apply (Qmult_lt_r _ _ (inject_Z (Z.pos d))); [exact HD |].
    rewrite Hx'. eapply Qlt_le_trans; [exact Hn2 |].
    replace (ln + 1)%Z with ((ln - ld + 1) + ld)%Z by lia.
    rewrite pow2_plus. apply Qmult_le_l; [apply pow2_pos | exact Hd1]. }
  unfold ilog2. simpl Qnum. simpl Qden. fold ln ld.
  destruct (Qle_bool (pow2 (ln - ld)) (n # d)) eqn:Hb.
  - apply Qle_bool_iff in Hb. split; [exact Hb | exact Hhi].
  - split; [exact Hlo |].
    replace (ln - ld - 1 + 1)%Z with (ln - ld)%Z by lia.
    apply Qnot_le_lt. intros H. apply Qle_bool_iff in H. congruence.
Qed.

Lemma ilog2_unique (x : Q) (e : Z) :
  pow2 e <= x → x < pow2 (e + 1) → ilog2 x = e.
Proof.
  intros H1 H2.
  assert (Hx : 0 < x) by (eapply Qlt_le_trans; [apply pow2_pos | exact H1]).
  destruct (ilog2_spec x Hx) as [H3 H4].
  assert (ilog2 x < e + 1)%Z.
  { apply pow2_lt_inv. eapply Qle_lt_trans; [exact H3 | exact H2]. }
  assert (e < ilog2 x + 1)%Z.
  { apply pow2_lt_inv. eapply Qle_lt_trans; [exact H1 | exact H4]. }
  lia.
Qed.


Lemma inject_Z_minus (a b : Z) : inject_Z (a - b) = inject_Z a - inject_Z b.
Proof.
  unfold Z.sub. by rewrite inject_Z_plus, inject_Z_opp.
Qed.

Lemma rne_comp (x y : Q) : x == y → rne x = rne y.
Proof.
  intros H. unfold rne. rewrite (Qfloor_comp _ _ H).
  assert (Hc : (x - inject_Z (Qfloor y) ?= 1 # 2)
               = (y - inject_Z (Qfloor y) ?= 1 # 2)).
  { apply Qcompare_comp; [by rewrite H | reflexivity]. }
  by rewrite Hc.
Qed.

Lemma floor_bounds (y : Q) :
  inject_Z (Qfloor y) <= y ∧ y < inject_Z (Qfloor y) + 1.
Proof.
  split; [apply Qfloor_le |].
  pose proof (Qlt_floor y) as H. by rewrite inject_Z_plus in H.
Qed.

Lemma rne_cases (y : Q) :
  (rne y = Qfloor y ∧ y - inject_Z (Qfloor y) <= 1 # 2)
  ∨ (rne y = (Qfloor y + 1)%Z ∧ 1 # 2 <= y - inject_Z (Qfloor y)).
Proof.
  unfold rne. destruct (Qcompare_spec (y - inject_Z (Qfloor y)) (1 # 2)) as [H | H | H].
  - destruct (Z.even (Qfloor y)); [left | right]; (split; [done | lra]).
  - left. split; [done | lra].
  - right. split; [done | lra].
Qed.

Lemma rne_error (y : Q) : Qabs (inject_Z (rne y) - y) <= 1 # 2.
Proof.
  destruct (floor_bounds y) as [H1 H2].
  apply Qabs_Qle_condition.
  destruct (rne_cases y) as [[-> H] | [-> H]]; rewrite ?inject_Z_plus;
    change (inject_Z 1) with 1; lra.
Qed.

Lemma rne_Z (k : Z) : rne (inject_Z k) = k.
Proof.
  unfold rne. rewrite Qfloor_Z.
  destruct (Qcompare_spec (inject_Z k - inject_Z k) (1 # 2)) as [H | H | H];
    [lra | done | lra].
Qed.

Lemma rne_ge (k : Z) (y : Q) : inject_Z k <= y → (k ≤ rne y)%Z.
Proof.
  intros H. apply Qfloor_resp_le in H. rewrite Qfloor_Z in H.
  destruct (rne_cases y) as [[-> _] | [-> _]]; lia.
Qed.

Lemma rne_le (k : Z) (y : Q) : y <= inject_Z k → (rne y ≤ k)%Z.
Proof.
  intros H. destruct (Qle_lt_or_eq _ _ H) as [Hlt | Heq].
  - destruct (floor_bounds y) as [H1 _].
    assert (Hf : (Qfloor y < k)%Z) by (rewrite Zlt_Qlt; lra).
    destruct (rne_cases y) as [[-> _] | [-> _]]; lia.
  - rewrite (rne_comp _ _ Heq), rne_Z. lia.
Qed.

(** A tie, or more, below an even integer goes up to it. *)
Lemma rne_below_even (k : Z) (y : Q) :
  Z.even k = true → inject_Z k - (1 # 2) <= y → y <= inject_Z k → rne y = k.
Proof.
  intros Hk H1 H2. destruct (Qle_lt_or_eq _ _ H2) as [Hlt | Heq];
    [| by rewrite (rne_comp _ _ Heq), rne_Z].
  assert (Hf : Qfloor y = (k - 1)%Z).
  { destruct (floor_bounds y) as [H3 H4].
    assert (Qfloor y < k)%Z by (rewrite Zlt_Qlt; lra).
    assert (k - 1 < Qfloor y + 1)%Z.
    { rewrite Zlt_Qlt, inject_Z_plus, inject_Z_minus.
      change (inject_Z 1) with 1. lra. }
    lia. }
  unfold rne. rewrite Hf.
  assert (Hodd : Z.even (k - 1) = false).
  { rewrite Z.even_sub, Hk. reflexivity. }
  rewrite Hodd.
  destruct (Qcompare_spec (y - inject_Z (k - 1)) (1 # 2)) as [H | H | H];
    [lia | | lia].
  exfalso. rewrite inject_Z_minus in H. change (inject_Z 1) with 1 in H. lra.
Qed.


Lemma round64_comp (x y : Q) : x == y → round64 x = round64 y.
Proof. intros H. unfold round64. by rewrite (Qred_complete _ _ H). Qed.

Lemma round64_zero (x : Q) : x == 0 → round64 x = 0.
Proof. intros H. by rewrite (round64_comp _ _ H). Qed.

Lemma Qabs_nonzero (x : Q) : ¬ x == 0 → 0 < Qabs x.
Proof.
  intros Hx. apply Qabs_case; intros H.
  - destruct (Qle_lt_or_eq _ _ H) as [H' | H']; [exact H' |].
    exfalso. apply Hx. by symmetry.
  - destruct (Qle_lt_or_eq _ _ H) as [H' | H']; [lra | contradiction].
Qed.

(** The shape of a rounded number: [K] units of [pow2 q], where [q] is 52
    binary places below the leading bit of [x], and -1074 at least. *)
Lemma round64_scaled (x : Q) :
  ¬ x == 0 →
  ∃ e q K : Z,
    pow2 e <= Qabs x ∧ Qabs x < pow2 (e + 1)
    ∧ q = Z.max (e - 52) (-1074)
    ∧ K = rne (x / pow2 q)
    ∧ round64 x == inject_Z K * pow2 q.
Proof.
  intros Hx.
  assert (Hr : Qred x == x) by apply Qred_correct.
  assert (Habs : Qabs (Qred x) == Qabs x) by (by apply Qabs_wd).
  assert (Ha : 0 < Qabs (Qred x)).
  { rewrite Habs. by apply Qabs_nonzero. }
  destruct (ilog2_spec _ Ha) as [H1 H2].
  assert (H1' : pow2 (ilog2 (Qabs (Qred x))) <= Qabs x)
    by (rewrite <- Habs; exact H1).
  assert (H2' : Qabs x < pow2 (ilog2 (Qabs (Qred x)) + 1))
    by (rewrite <- Habs; exact H2).
  clear H1 H2. rename H1' into H1, H2' into H2.
  exists (ilog2 (Qabs (Qred x))), (lsb (Qred x)),
    (rne (x / pow2 (lsb (Qred x)))).
  split; [exact H1 |]. split; [exact H2 |]. split; [reflexivity |].
  split; [reflexivity |].
  unfold round64. cbv zeta.
  destruct (Qeq_bool (Qred x) 0) eqn:Hb.
  - apply Qeq_bool_iff in Hb. rewrite Hr in Hb. contradiction.
  - rewrite Qred_correct.
    rewrite (rne_comp (Qred x / pow2 (lsb (Qred x))) (x / pow2 (lsb (Qred x))));
      [reflexivity |].
    unfold Qdiv. apply Qmult_comp; [exact Hr | reflexivity].
Qed.


Lemma scaled_back (x : Q) (q : Z) : x / pow2 q * pow2 q == x.
Proof.
  field. pose proof (pow2_pos q) as H. intros H0. rewrite H0 in H.
  discriminate.
Qed.

(** Rounding is off by half a unit of the last place at most. *)
Lemma round64_error (x : Q) (q : Z) :
  Qabs (inject_Z (rne (x / pow2 q)) * pow2 q - x) <= pow2 q * (1 # 2).
Proof.
  pose proof (rne_error (x / pow2 q)) as H.
  pose proof (pow2_pos q) as HP.
  pose proof (scaled_back x q) as Hy.
  set (y := x / pow2 q) in *. set (K := inject_Z (rne y)) in *.
  apply Qabs_Qle_condition in H as [H1 H2].
  apply Qabs_Qle_condition. rewrite <- Hy. split; nra.
Qed.

(** A number between 0 and 1 is rounded to a number between 0 and 1. *)
Lemma round64_unit_interval (x : Q) :
  0 <= x → x <= 1 → 0 <= round64 x ∧ round64 x <= 1.
Proof.
  intros H0 H1.
  destruct (Qeq_dec x 0) as [Hz | Hnz];
    [rewrite (round64_zero _ Hz); split; discriminate |].
  destruct (round64_scaled x Hnz) as (e & q & K & He1 & He2 & Hq & HK & Hr).
  rewrite (Qabs_pos _ H0) in He1, He2.
  assert (He : (e ≤ 0)%Z).
  { destruct (Z_le_gt_dec e 0) as [H | H]; [exact H | exfalso].
    pose proof (pow2_le 1 e ltac:(lia)) as Hp.
    change (pow2 1) with 2 in Hp. lra. }
  assert (Hq0 : (q ≤ 0)%Z) by lia.
  pose proof (pow2_pos q) as HP.
  pose proof (scaled_back x q) as Hy.
  pose proof (pow2_opp q) as Hone.
  rewrite (pow2_Z (- q)) in Hone by lia.
  assert (HK0 : (0 ≤ K)%Z).
  { rewrite HK. apply rne_ge. apply Qle_shift_div_l; [exact HP |].
    change (inject_Z 0) with 0. lra. }
  assert (HK1 : (K ≤ 2 ^ (- q))%Z).
  { rewrite HK. apply rne_le. apply Qle_shift_div_r; [exact HP |].
    rewrite Qmult_comm, Hone. exact H1. }
  rewrite Zle_Qle in HK0, HK1. change (inject_Z 0) with 0 in HK0.
  rewrite Hr. split; [nra |].
  rewrite <- Hone, (Qmult_comm (pow2 q)).
  apply Qmult_le_r; [exact HP | exact HK1].
Qed.

(** Below 1 the rounding error is 2^-54 at most. *)
Lemma round64_error_below_one (x : Q) :
  0 <= x → x < 1 → Qabs (round64 x - x) <= pow2 (-54).
Proof.
  intros H0 H1.
  destruct (Qeq_dec x 0) as [Hz | Hnz].
  { rewrite (round64_zero _ Hz), Hz. discriminate. }
  destruct (round64_scaled x Hnz) as (e & q & K & He1 & He2 & Hq & HK & Hr).
  rewrite (Qabs_pos _ H0) in He1, He2.
  assert (He : (e < 0)%Z).
  { apply pow2_lt_inv. change (pow2 0) with 1. lra. }
  pose proof (round64_error x q) as Herr. rewrite <- HK, <- Hr in Herr.
  eapply Qle_trans; [exact Herr |].
  pose proof (pow2_le q (-53) ltac:(lia)) as Hp.
  assert (H54 : pow2 (-54) == pow2 (-53) * (1 # 2)) by reflexivity.
  rewrite H54. lra.
Qed.


(** Within 2^-54 of 1, rounding gives 1: half the gap to the next number
    below 1, where the tie goes to 1. *)
Lemma round64_near_one (z : Q) :
  1 - pow2 (-54) <= z → z <= 1 + pow2 (-54) → round64 z == 1.
Proof.
  intros H1 H2.
  assert (H54 : pow2 (-54) == 1 # 18014398509481984) by reflexivity.
  rewrite H54 in H1, H2.
  assert (Hpos : 0 <= z) by lra.
  assert (Hnz : ¬ z == 0) by (intros Hz; rewrite Hz in H1; lra).
  destruct (round64_scaled z Hnz) as (e & q & K & He1 & He2 & Hq & HK & Hr).
  rewrite (Qabs_pos _ Hpos) in He1, He2.
  pose proof (scaled_back z q) as Hy.
  remember (z / pow2 q) as y eqn:Hyd. clear Hyd.
  destruct (Qlt_le_dec z 1) as [Hlt | Hge].
  - assert (He : e = (-1)%Z).
    { assert (e < 0)%Z by (apply pow2_lt_inv; change (pow2 0) with 1; lra).
      assert (-1 < e + 1)%Z.
      { apply pow2_lt_inv. eapply Qle_lt_trans; [| exact He2].
        change (pow2 (-1)) with (1 # 2). lra. }
      lia. }
    assert (Hq' : q = (-53)%Z) by lia. clear Hq. subst q.
    assert (HP : pow2 (-53) == 1 # 9007199254740992) by reflexivity.
    rewrite HP in Hy.
    assert (HKv : K = 9007199254740992%Z).
    { rewrite HK. apply rne_below_even; [reflexivity | |];
        change (inject_Z 9007199254740992) with (9007199254740992 # 1); lra. }
    rewrite Hr, HKv. reflexivity.
  - assert (He : e = 0%Z).
    { assert (e < 1)%Z.
      { apply pow2_lt_inv. eapply Qle_lt_trans; [exact He1 |].
        change (pow2 1) with 2. lra. }
      assert (0 < e + 1)%Z.
      { apply pow2_lt_inv. eapply Qle_lt_trans; [| exact He2].
        change (pow2 0) with 1. lra. }
      lia. }
    assert (Hq' : q = (-52)%Z) by lia. clear Hq. subst q.
    assert (HP : pow2 (-52) == 1 # 4503599627370496) by reflexivity.
    rewrite HP in Hy.
    assert (HKv : K = 4503599627370496%Z).
    { apply Z.le_antisymm.
      - pose proof (rne_error y) as Herr. rewrite <- HK in Herr.
        apply Qabs_Qle_condition in Herr as [_ Herr].
        assert (Hlt : inject_Z K < inject_Z (4503599627370496 + 1)).
        { change (inject_Z (4503599627370496 + 1)) with (4503599627370497 # 1).
          lra. }
        rewrite <- Zlt_Qlt in Hlt. lia.
      - rewrite HK. apply rne_ge.
        change (inject_Z 4503599627370496) with (4503599627370496 # 1). lra. }
    rewrite Hr, HKv. reflexivity.
Qed.

(** A number of 53 bits at most, in units of 2^q with q no less than -1074,
    is rounded to itself. *)
Lemma round64_fixed (K q : Z) :
  (-1074 ≤ q)%Z → (Z.abs K < 2 ^ 53)%Z →
  round64 (inject_Z K * pow2 q) == inject_Z K * pow2 q.
Proof.
  intros Hq HK.
  destruct (Z.eq_dec K 0%Z) as [-> | HK0].
  { rewrite round64_zero; [| ring]. ring. }
  pose proof (pow2_pos q) as HP.
  assert (Habs : Qabs (inject_Z K * pow2 q) == inject_Z (Z.abs K) * pow2 q).
  { rewrite Qabs_Qmult, (Qabs_pos (pow2 q)) by lra. reflexivity. }
  assert (HKq : 1 <= inject_Z (Z.abs K)).
  { change 1 with (inject_Z 1). rewrite <- Zle_Qle. lia. }
  assert (Hnz : ¬ inject_Z K * pow2 q == 0).
  { intros H. rewrite H in Habs. change (Qabs 0) with 0 in Habs. nra. }
  destruct (round64_scaled _ Hnz) as (e & q' & K' & He1 & He2 & Hq' & HK' & Hr).
  rewrite Habs in He1, He2.
  assert (He : (e < 53 + q)%Z).
  { apply pow2_lt_inv. eapply Qle_lt_trans; [exact He1 |].
    rewrite pow2_plus. apply Qmult_lt_r; [exact HP |].
    rewrite (pow2_Z 53) by lia. by rewrite <- Zlt_Qlt. }
  assert (Hle : (q' ≤ q)%Z) by lia.
  assert (Hsplit : pow2 q == inject_Z (2 ^ (q - q')) * pow2 q').
  { rewrite <- pow2_Z by lia. rewrite <- pow2_plus.
    by replace (q - q' + q')%Z with q by lia. }
  pose proof (pow2_pos q') as HP'.
  assert (HK'v : K' = (K * 2 ^ (q - q'))%Z).
  { rewrite HK'. rewrite <- rne_Z. apply rne_comp.
    rewrite inject_Z_mult, Hsplit. field. lra. }
  rewrite Hr, HK'v, inject_Z_mult, Hsplit. ring.
Qed.

(** A rounded number has 53 bits at most, in units no smaller than
    2^-1074. *)
Lemma round64_bits (x : Q) :
  ∃ K q : Z, (-1074 ≤ q)%Z ∧ (Z.abs K < 2 ^ 53)%Z
             ∧ round64 x == inject_Z K * pow2 q.
Proof.
  destruct (Qeq_dec x 0) as [Hz | Hnz].
  { exists 0%Z, 0%Z. split; [lia |]. split; [reflexivity |].
    by rewrite (round64_zero _ Hz). }
  destruct (round64_scaled x Hnz) as (e & q & K & He1 & He2 & Hq & HK & Hr).
  pose proof (pow2_pos q) as HP.
  pose proof (scaled_back x q) as Hy.
  assert (Hup : pow2 (e + 1) <= inject_Z (2 ^ 53) * pow2 q).
  { rewrite <- (pow2_Z 53), <- pow2_plus by lia. apply pow2_le. lia. }
  assert (Hy1 : Qabs (x / pow2 q) <= inject_Z (2 ^ 53)).
  { assert (Hab : Qabs x == Qabs (x / pow2 q) * pow2 q).
    { rewrite <- (Qabs_wd _ _ Hy), Qabs_Qmult.
      by rewrite (Qabs_pos (pow2 q)) by lra. }
    apply (Qmult_le_r _ _ (pow2 q)); [exact HP |]. rewrite <- Hab. lra. }
  apply Qabs_Qle_condition in Hy1 as [Hlo Hhi].
  rewrite <- inject_Z_opp in Hlo.
  apply rne_ge in Hlo. apply rne_le in Hhi. rewrite <- HK in Hlo, Hhi.
  destruct (Z.eq_dec K (2 ^ 53)%Z) as [Htop | Htop];
    [| destruct (Z.eq_dec K (- 2 ^ 53)%Z) as [Hbot | Hbot]].
  - exists (2 ^ 52)%Z, (q + 1)%Z. split; [lia |]. split; [reflexivity |].
    rewrite Hr, Htop, pow2_plus. change (pow2 1) with 2.
    change (inject_Z (2 ^ 53)) with (inject_Z (2 ^ 52) * 2). ring.
  - exists (- 2 ^ 52)%Z, (q + 1)%Z. split; [lia |]. split; [reflexivity |].
    rewrite Hr, Hbot, pow2_plus. change (pow2 1) with 2.
    change (inject_Z (- 2 ^ 53)) with (inject_Z (- 2 ^ 52) * 2). ring.
  - exists K, q. split; [lia |]. split; [lia | exact Hr].
Qed.

(** Rounding a rounded number changes nothing. *)
Lemma round64_idempotent (x : Q) : round64 (round64 x) == round64 x.
Proof.
  destruct (round64_bits x) as (K & q & Hq & HK & Hr).
  rewrite (round64_comp _ _ Hr). rewrite Hr. by apply round64_fixed.
Qed.

(** The rounding, the subtraction and the addition agree with the Standard
    Library's binary64 on the samples. *)
Example round64_agrees_with_SpecFloat :
  forallb (λ x, match ofSpecFloat (toSpecFloat x) with
                | Some r => Qeq_bool r (round64 x)
                | None => false
                end) dyadicNumbers = true
  ∧ forallb (agreesOn fsub (SFsub 53 1024)) floatPairs = true
  ∧ forallb (agreesOn fadd (SFadd 53 1024)) floatPairs = true.
Proof. repeat split; vm_compute; reflexivity. Qed.

(** For a probability [p], [1.0 - p] and then [p], 0.0 and 0.0, added up on
    floats from 0.0, give 1.0. *)
Lemma float_sum_is_one (p : Q) :
  0 <= p → p <= 1 →
  fadd (fadd (fadd (fadd 0 (fsub 1 p)) p) 0) 0 == 1.
Proof.
  intros H0 H1. unfold fadd, fsub.
  set (s := round64 (1 - p)).
  assert (Hs : round64 (0 + s) == s).
  { rewrite (round64_comp (0 + s) s) by ring. apply round64_idempotent. }
  assert (Hsum : round64 (round64 (0 + s) + p) == 1).
  { rewrite (round64_comp _ (s + p)) by (by rewrite Hs).
    assert (H54 : pow2 (-54) == 1 # 18014398509481984) by reflexivity.
    destruct (Qeq_dec p 0) as [Hp | Hp].
    - assert (Hone : s + p == 1).
      { unfold s. rewrite (round64_comp (1 - p) 1) by (rewrite Hp; ring).
        rewrite Hp. reflexivity. }
      by rewrite (round64_comp _ _ Hone).
    - assert (Hp' : 0 < p).
      { destruct (Qle_lt_or_eq _ _ H0) as [H | H]; [exact H |].
        exfalso. apply Hp. by symmetry. }
      pose proof (round64_error_below_one (1 - p) ltac:(lra) ltac:(lra))
        as Herr.
      fold s in Herr. apply Qabs_Qle_condition in Herr as [He1 He2].
      apply round64_near_one; lra. }
  set (a := round64 (round64 (0 + s) + p)) in *.
  rewrite (round64_comp (a + 0) 1) by (rewrite Hsum; ring).
  vm_compute. reflexivity.
Qed.

End Binary64_properties.

(** ** Properties of [SEIR] *)

Section SEIR_properties.
Import Framework Props.

(** A pair that an edge locus hands out names an edge of the network,
    with its first endpoint in the first compartment of the locus and its
    second endpoint in the second. *)
Lemma elem_of_locusElements_edge (s : Process) (l r : string) (e : edge) :
  EEdge e ∈ locusElements s (EdgeLocus l r) →
  isEdge s e = true
  ∧ compartmentOf s !! e.1 = Some l
  ∧ compartmentOf s !! e.2 = Some r.
Proof.
  simpl. rewrite list_elem_of_fmap. intros (e' & [= <-] & Hin).
  apply list_elem_of_omap in Hin as ([a b] & Hin & Hto).
  unfold towards in Hto. simpl in Hto.
  destruct (bool_decide (compartmentOf s !! a = Some l)
            && bool_decide (compartmentOf s !! b = Some r)) eqn:H1.
  - apply andb_true_iff in H1
      as [Ha%bool_decide_eq_true Hb%bool_decide_eq_true].
    injection Hto as <-. split; [| done]. unfold isEdge. simpl.
    by rewrite bool_decide_eq_true_2.
  - destruct (bool_decide (compartmentOf s !! b = Some l)
              && bool_decide (compartmentOf s !! a = Some r)) eqn:H2;
      [| done].
    apply andb_true_iff in H2
      as [Hb%bool_decide_eq_true Ha%bool_decide_eq_true].
    injection Hto as <-. split; [| done]. unfold isEdge. simpl.
    rewrite (bool_decide_eq_true_2 ((a, b) ∈ edges s)) by done.
    apply orb_true_r.
Qed.

(** Running [infect] over an edge of the network and over a pair that is
    none. *)
Lemma infect_run (s : Process) (t : Q) (n m : node) :
  isEdge s (n, m) = true →
  SEIR.infect t (n, m) s
  = (Returned tt,
     mkProcess (compartments s) (loci s) (perElementEvents s)
       (repeatingEvents s) (edges s)
       (<[n := SEIR.EXPOSED]> (compartmentOf s))
       (<[edgeKey (n, m) := t]> (occupied s))).
Proof.
  intros He.
  unfold SEIR.infect, bind, changeCompartment, modify, markOccupied.
  cbv [edges]. fold (edges s). unfold isEdge in *. simpl in *.
  by rewrite He.
Qed.

Lemma infect_no_edge (s : Process) (t : Q) (n m : node) :
  isEdge s (n, m) = false →
  ∃ ex, SEIR.infect t (n, m) s
        = (Raised ex,
           mkProcess (compartments s) (loci s) (perElementEvents s)
             (repeatingEvents s) (edges s)
             (<[n := SEIR.EXPOSED]> (compartmentOf s)) (occupied s)).
Proof.
  intros He. eexists.
  unfold SEIR.infect, bind, changeCompartment, modify, markOccupied.
  unfold isEdge in *. simpl in *. by rewrite He.
Qed.

(** An edge delivered from the locus SE or SI of a model with the loci of
    [build]: it is an edge of the network, its first endpoint is
    susceptible and its second endpoint is exposed or infected. *)
Lemma delivered_edge (s : Process) (sus inf : node) :
  loci s !! SEIR.SE = Some (EdgeLocus SEIR.SUSCEPTIBLE SEIR.EXPOSED) →
  loci s !! SEIR.SI = Some (EdgeLocus SEIR.SUSCEPTIBLE SEIR.INFECTED) →
  deliveredFrom s SEIR.SE (sus, inf) ∨ deliveredFrom s SEIR.SI (sus, inf) →
  isEdge s (sus, inf) = true
  ∧ compartmentOf s !! sus = Some SEIR.SUSCEPTIBLE
  ∧ (compartmentOf s !! inf = Some SEIR.EXPOSED
     ∨ compartmentOf s !! inf = Some SEIR.INFECTED)
  ∧ inf ≠ sus.
Proof.
  intros HSE HSI Hfrom.
  assert (isEdge s (sus, inf) = true
          ∧ compartmentOf s !! sus = Some SEIR.SUSCEPTIBLE
          ∧ (compartmentOf s !! inf = Some SEIR.EXPOSED
             ∨ compartmentOf s !! inf = Some SEIR.INFECTED))
    as (He & Hsus & Hinf).
  { destruct Hfrom as [(L & HL & Hin) | (L & HL & Hin)].
    - rewrite HSE in HL. injection HL as <-.
      apply elem_of_locusElements_edge in Hin as (? & ? & ?). auto.
    - rewrite HSI in HL. injection HL as <-.
      apply elem_of_locusElements_edge in Hin as (? & ? & ?). auto. }
  split; [done |]. split; [done |]. split; [done |].
  intros ->. rewrite Hsus in Hinf. by destruct Hinf.
Qed.



(** C4: for every time [t] and every edge [e], [infectAsymptomatic(t, e)]
    has the effect of [infect(t, e)]: the same outcome and the same final
    state, from every state. The delegation goes through [self.infect], so
    an object whose class overrides [infect] runs the override. *)
Theorem infectAsymptomatic_is_infect (t : Q) (e : edge) (s : Process) :
  SEIR.infectAsymptomatic t e s = SEIR.infect t e s
  ∧ ∀ override : Q → edge → M Process unit,
      SEIR.infectAsymptomatic_with override t e s = override t e s.
Proof. split; [reflexivity | intros override; reflexivity]. Qed.

(** Running [build] on a dictionary that holds the five parameters. *)
Lemma build_run (parent : Params → M Process unit) (params : Params)
    (s s1 : Process) (pExposed pInfectA pInfect pSymptoms pRemove : Q) :
  params !! SEIR.P_EXPOSED = Some pExposed →
  params !! SEIR.P_INFECT_ASYMPTOMATIC = Some pInfectA →
  params !! SEIR.P_INFECT_SYMPTOMATIC = Some pInfect →
  params !! SEIR.P_SYMPTOMS = Some pSymptoms →
  params !! SEIR.P_REMOVE = Some pRemove →
  parent params s = (Returned tt, s1) →
  SEIR.build_with parent params s
  = (Returned tt,
     mkProcess (compartments s1 ++ seirCompartments pExposed)
       (foldl (λ acc nl, <[nl.1 := nl.2]> acc) (loci s1) seirLoci)
       (perElementEvents s1 ++ seirEvents pInfectA pInfect pSymptoms pRemove)
       (repeatingEvents s1) (edges s1) (compartmentOf s1) (occupied s1)).
Proof.
  intros HE HA HI HS HR Hparent.
  unfold SEIR.build_with, bind, getitem.
  rewrite Hparent, HE, HA, HI, HS, HR.
  cbv [addCompartment addEventPerElement trackEdgesBetweenCompartments
       trackNodesInCompartment setLocus modify ret compartments loci
       perElementEvents repeatingEvents edges compartmentOf occupied].
  unfold seirCompartments, seirEvents. by rewrite <- !app_assoc.
Qed.

(** With 1e17 for [pExposed], [build] registers -1e17 for SUSCEPTIBLE (the
    1.0 is lost in the rounding), and the four probabilities sum to 0.0. *)
Example build_with_huge_pExposed :
  compartments (SEIR.build hugeExposed twoNodes).2
  = [(SEIR.SUSCEPTIBLE, - (10 ^ 17)); (SEIR.EXPOSED, 10 ^ 17);
     (SEIR.INFECTED, 0); (SEIR.REMOVED, 0)]%Q
  ∧ totalProbability (compartments (SEIR.build hugeExposed twoNodes).2) = 0%Q.
Proof. split; vm_compute; reflexivity. Qed.

(** C5, as stated, does not hold: the dictionary [hugeExposed] holds the
    five parameters, and the four probabilities that [build] registers on it
    do not sum to 1.0. *)
Lemma build_sum_counterexample : ¬ buildSumsToOne hugeExposed twoNodes.
Proof.
  intros H. destruct H as (s' & new & Hrun & Hc & _ & Hsum).
  { repeat (constructor; [eexists; vm_compute; reflexivity |]). constructor. }
  pose proof build_with_huge_pExposed as [Hex _].
  unfold SEIR.build in Hrun, Hex. rewrite Hrun in Hex.
  cbn [snd] in Hex. rewrite Hex in Hc.
  change (compartments twoNodes) with (@nil (string * Q)) in Hc.
  rewrite app_nil_l in Hc. subst new.
  vm_compute in Hsum. discriminate.
Qed.

(** C5: for every parameter dictionary that holds the five SEIR
    parameters, [build] (once the parent's build has returned) registers
    exactly four compartments, SUSCEPTIBLE with the float 1.0 - pExposed,
    EXPOSED with pExposed, INFECTED with 0 and REMOVED with 0, after the
    compartments the model had; when pExposed is a probability, the float
    1.0 - pExposed is within 2^-54 of the difference, and the four
    probabilities, added up on floats, sum to 1.0. *)
Theorem build_registers_compartments (parent : Params → M Process unit)
    (params : Params) (s s1 : Process)
    (pExposed pInfectA pInfect pSymptoms pRemove : Q) :
  params !! SEIR.P_EXPOSED = Some pExposed →
  params !! SEIR.P_INFECT_ASYMPTOMATIC = Some pInfectA →
  params !! SEIR.P_INFECT_SYMPTOMATIC = Some pInfect →
  params !! SEIR.P_SYMPTOMS = Some pSymptoms →
  params !! SEIR.P_REMOVE = Some pRemove →
  parent params s = (Returned tt, s1) →
  ∃ s', SEIR.build_with parent params s = (Returned tt, s')
        ∧ compartments s'
          = (compartments s1
             ++ [(SEIR.SUSCEPTIBLE, Binary64.fsub 1 pExposed);
                 (SEIR.EXPOSED, pExposed);
                 (SEIR.INFECTED, 0%Q); (SEIR.REMOVED, 0%Q)])%list
        ∧ (isProbability pExposed →
           (Qabs (Binary64.fsub 1 pExposed - (1 - pExposed))
            <= Binary64.pow2 (-54))%Q
           ∧ (totalProbability
                [(SEIR.SUSCEPTIBLE, Binary64.fsub 1 pExposed);
                 (SEIR.EXPOSED, pExposed);
                 (SEIR.INFECTED, 0); (SEIR.REMOVED, 0)] == 1)%Q).
Proof.
  intros HE HA HI HS HR Hparent.
  eexists. split; [by eapply build_run |]. split; [done |].
  intros [H0 H1]. split.
  - unfold Binary64.fsub.
    destruct (Qeq_dec pExposed 0) as [Hp | Hp].
    + rewrite (round64_comp (1 - pExposed) 1) by (rewrite Hp; ring).
      rewrite Hp. vm_compute. discriminate.
    + apply round64_error_below_one; [lra |].
      destruct (Qle_lt_or_eq _ _ H0) as [H | H]; [lra |].
      exfalso. apply Hp. by symmetry.
  - unfold totalProbability. cbn [foldl snd]. by apply float_sum_is_one.
Qed.

Lemma build_registers_compartments_witness :
  ∃ s', SEIR.build seirParams twoNodes = (Returned tt, s')
        ∧ compartments s'
          = [(SEIR.SUSCEPTIBLE, 3 # 4); (SEIR.EXPOSED, 1 # 4);
             (SEIR.INFECTED, 0); (SEIR.REMOVED, 0)]%Q
        ∧ (totalProbability (compartments s') == 1)%Q.
Proof.
  destruct (build_registers_compartments SEIR.plainBuild seirParams
              twoNodes twoNodes (1 # 4) 1 1 1 1)
    as (s' & Hrun & Hc & Hsum); [reflexivity .. |].
  exists s'. split; [exact Hrun |]. split; [exact Hc |].
  rewrite Hc. apply Hsum. split; discriminate.
Defined.

(** C6: [build] registers the edge loci SE, between SUSCEPTIBLE and
    EXPOSED, and SI, between SUSCEPTIBLE and INFECTED, the node loci of
    EXPOSED and of INFECTED, and exactly four per-element event rules: SE
    with pInfectA to [infectAsymptomatic], SI with pInfect to [infect],
    EXPOSED with pSymptoms to [symptoms], INFECTED with pRemove to
    [remove]. *)
Theorem build_registers_loci_and_events (parent : Params → M Process unit)
    (params : Params) (s s1 : Process)
    (pExposed pInfectA pInfect pSymptoms pRemove : Q) :
  params !! SEIR.P_EXPOSED = Some pExposed →
  params !! SEIR.P_INFECT_ASYMPTOMATIC = Some pInfectA →
  params !! SEIR.P_INFECT_SYMPTOMATIC = Some pInfect →
  params !! SEIR.P_SYMPTOMS = Some pSymptoms →
  params !! SEIR.P_REMOVE = Some pRemove →
  parent params s = (Returned tt, s1) →
  ∃ s', SEIR.build_with parent params s = (Returned tt, s')
        ∧ loci s'
          = <[SEIR.INFECTED := NodeLocus SEIR.INFECTED]>
              (<[SEIR.EXPOSED := NodeLocus SEIR.EXPOSED]>
                 (<[SEIR.SI := EdgeLocus SEIR.SUSCEPTIBLE SEIR.INFECTED]>
                    (<[SEIR.SE := EdgeLocus SEIR.SUSCEPTIBLE SEIR.EXPOSED]>
                       (loci s1))))
        ∧ loci s' !! SEIR.SE = Some (EdgeLocus SEIR.SUSCEPTIBLE SEIR.EXPOSED)
        ∧ loci s' !! SEIR.SI = Some (EdgeLocus SEIR.SUSCEPTIBLE SEIR.INFECTED)
        ∧ loci s' !! SEIR.EXPOSED = Some (NodeLocus SEIR.EXPOSED)
        ∧ loci s' !! SEIR.INFECTED = Some (NodeLocus SEIR.INFECTED)
        ∧ perElementEvents s'
          = (perElementEvents s1
             ++ [(SEIR.SE, pInfectA, h_infectAsymptomatic);
                 (SEIR.SI, pInfect, h_infect);
                 (SEIR.EXPOSED, pSymptoms, h_symptoms);
                 (SEIR.INFECTED, pRemove, h_remove)])%list.
Proof.
  intros HE HA HI HS HR Hparent.
  eexists. split; [by eapply build_run |]. simpl.
  split; [done |].
  repeat split; by simplify_map_eq.
Qed.

Lemma build_registers_loci_and_events_witness :
  ∃ s', SEIR.build seirParams twoNodes = (Returned tt, s')
        ∧ loci s' !! SEIR.SE = Some (EdgeLocus SEIR.SUSCEPTIBLE SEIR.EXPOSED)
        ∧ loci s' !! SEIR.SI = Some (EdgeLocus SEIR.SUSCEPTIBLE SEIR.INFECTED)
        ∧ loci s' !! SEIR.EXPOSED = Some (NodeLocus SEIR.EXPOSED)
        ∧ loci s' !! SEIR.INFECTED = Some (NodeLocus SEIR.INFECTED)
        ∧ perElementEvents s'
          = [(SEIR.SE, 1%Q, h_infectAsymptomatic); (SEIR.SI, 1%Q, h_infect);
             (SEIR.EXPOSED, 1%Q, h_symptoms); (SEIR.INFECTED, 1%Q, h_remove)].
Proof.
  destruct (build_registers_loci_and_events SEIR.plainBuild seirParams
              twoNodes twoNodes (1 # 4) 1 1 1 1)
    as (s' & Hrun & _ & HSE & HSI & HE & HI & Hev); [reflexivity .. |].
  exists s'. repeat split; assumption.
Defined.

(** C7: for every time [t] and every node [n], [symptoms(t, n)] moves [n]
    from the EXPOSED to the INFECTED compartment and [remove(t, n)] moves
    [n] from the INFECTED to the REMOVED compartment; both return normally
    and change nothing but the compartment label of [n]. *)
Theorem symptoms_and_remove_move_node (s : Process) (t : Q) (n : node) :
  (compartmentOf s !! n = Some SEIR.EXPOSED →
   ∃ s', SEIR.symptoms t n s = (Returned tt, s')
         ∧ compartmentOf s' !! n = Some SEIR.INFECTED
         ∧ sameExceptNode n s s')
  ∧ (compartmentOf s !! n = Some SEIR.INFECTED →
     ∃ s', SEIR.remove t n s = (Returned tt, s')
           ∧ compartmentOf s' !! n = Some SEIR.REMOVED
           ∧ sameExceptNode n s s').
Proof.
  split; intros _; (eexists; split; [reflexivity |]); simpl;
    (split; [by rewrite lookup_insert_eq |]);
    (split; [done |]); simpl; by rewrite delete_insert_eq.
Qed.

Lemma symptoms_and_remove_move_node_witness :
  (∃ s', SEIR.symptoms 1 2%nat afterInfection = (Returned tt, s')
         ∧ compartmentOf s' !! 2%nat = Some SEIR.INFECTED)
  ∧ (∃ s', SEIR.remove 1 1%nat builtTwoNodes = (Returned tt, s')
           ∧ compartmentOf s' !! 1%nat = Some SEIR.REMOVED).
Proof.
  split.
  - destruct (symptoms_and_remove_move_node afterInfection 1 2%nat)
      as [Hsymptoms _].
    destruct Hsymptoms as (s' & Hrun & Hn & _); [vm_compute; reflexivity |].
    exists s'. split; [exact Hrun | exact Hn].
  - destruct (symptoms_and_remove_move_node builtTwoNodes 1 1%nat)
      as [_ Hremove].
    destruct Hremove as (s' & Hrun & Hn & _); [vm_compute; reflexivity |].
    exists s'. split; [exact Hrun | exact Hn].
Defined.

End SEIR_properties.

(** ** Properties of [Monitor] *)

Section Monitor_properties.
Import Framework Props.

(** Running [build] on a dictionary that holds [time_delta]. *)
Lemma monitor_build_run (parent : Params → M Process unit) (params : Params)
    (s : Monitor.state) (p1 : Process) (delta : Q) :
  params !! Monitor.DELTA = Some delta →
  parent params (Monitor.process s) = (Returned tt, p1) →
  Monitor.build_with parent params s
  = (Returned tt,
     Monitor.mkMonitor
       (mkProcess (compartments p1) (loci p1) (perElementEvents p1)
          (repeatingEvents p1 ++ [Repeating 0 delta None h_observe])
          (edges p1) (compartmentOf p1) (occupied p1))
       (Monitor._timeSeries s)).
Proof.
  intros Hd Hparent.
  unfold Monitor.build_with, bind, Monitor.inProcess, lift, getitem.
  rewrite Hparent. simpl. by rewrite Hd.
Qed.

(** [build] leaves the attribute [_timeSeries] alone, whatever its
    outcome. *)
Lemma monitor_build_keeps_timeSeries (parent : Params → M Process unit)
    (params : Params) (s : Monitor.state) :
  Monitor._timeSeries (Monitor.build_with parent params s).2
  = Monitor._timeSeries s.
Proof.
  unfold Monitor.build_with, bind, Monitor.inProcess, lift, getitem.
  destruct (parent params (Monitor.process s)) as [[[] | e] p1]; simpl;
    [| done].
  by destruct (params !! Monitor.DELTA).
Qed.

(** [build] with [time_delta] equal to -1 on a monitor just reset: it
    returns and the event posted recurs every -1. *)
Example build_with_negative_delta :
  Monitor.build {[Monitor.DELTA := (-1)%Q]} freshMonitor
  = (Returned tt,
     Monitor.mkMonitor
       (mkProcess [] ∅ [] [Repeating 0 (-1) None h_observe] [] ∅ ∅) None).
Proof. vm_compute. reflexivity. Qed.

(** C2, as stated, fails: with [time_delta] equal to -1, and with
    [time_delta] equal to 0, [build] returns normally. *)
Lemma build_nonpositive_delta_counterexample :
  ¬ buildRejectsNonPositiveDelta {[Monitor.DELTA := (-1)%Q]} freshMonitor
  ∧ ¬ buildRejectsNonPositiveDelta {[Monitor.DELTA := 0%Q]} freshMonitor.
Proof.
  split; intros H.
  - destruct (H (-1)%Q) as (e & s' & Hrun); [done | done |].
    vm_compute in Hrun. discriminate.
  - destruct (H 0%Q) as (e & s' & Hrun); [done | done |].
    vm_compute in Hrun. discriminate.
Qed.

(** C2 (amended): [Monitor.build] does not validate [time_delta]: once the
    parent's build has returned, [build] returns normally for every
    parameter dictionary that holds a [time_delta], of whatever sign, and
    the last event it has posted recurs every [time_delta]; it raises
    [KeyError] when the dictionary holds no [time_delta]. *)
Theorem build_ignores_sign_of_delta (parent : Params → M Process unit)
    (params : Params) (s : Monitor.state) (p1 : Process) :
  parent params (Monitor.process s) = (Returned tt, p1) →
  match params !! Monitor.DELTA with
  | Some delta =>
      ∃ s', Monitor.build_with parent params s = (Returned tt, s')
            ∧ last (repeatingEvents (Monitor.process s'))
              = Some (Repeating 0 delta None h_observe)
  | None =>
      ∃ s', Monitor.build_with parent params s
            = (Raised (KeyError Monitor.DELTA), s')
  end.
Proof.
  intros Hparent. destruct (params !! Monitor.DELTA) as [delta |] eqn:Hd.
  - eexists. split; [by eapply monitor_build_run |]. simpl.
    by rewrite last_snoc.
  - eexists.
    unfold Monitor.build_with, bind, Monitor.inProcess, lift, getitem.
    rewrite Hparent. simpl. by rewrite Hd.
Qed.

Lemma build_ignores_sign_of_delta_witness :
  ∃ s', Monitor.build {[Monitor.DELTA := (-1)%Q]} freshMonitor
        = (Returned tt, s')
        ∧ last (repeatingEvents (Monitor.process s'))
          = Some (Repeating 0 (-1) None h_observe).
Proof.
  pose proof (build_ignores_sign_of_delta Monitor.plainBuild
                {[Monitor.DELTA := (-1)%Q]} freshMonitor emptyProcess)
    as Hbuild.
  vm_compute (_ !! _) in Hbuild. apply Hbuild. reflexivity.
Defined.

(** C8: for every parameter dictionary that holds a [time_delta], [build]
    (once the parent's build has returned) posts exactly one repeating
    event, after the events posted before: it starts at time 0, recurs
    every [time_delta], is bound to [observe] and carries no element
    ([None]). The event has no expiry: its k-th firing, for every k, is at
    time k * [time_delta]. *)
Theorem build_posts_repeating_observation (parent : Params → M Process unit)
    (params : Params) (s : Monitor.state) (p1 : Process) (delta : Q) :
  params !! Monitor.DELTA = Some delta →
  parent params (Monitor.process s) = (Returned tt, p1) →
  ∃ s', Monitor.build_with parent params s = (Returned tt, s')
        ∧ repeatingEvents (Monitor.process s')
          = (repeatingEvents p1 ++ [Repeating 0 delta None h_observe])%list
        ∧ perElementEvents (Monitor.process s') = perElementEvents p1
        ∧ ∀ k : nat,
            (firingTime (Repeating 0 delta None h_observe) k
             == inject_Z (Z.of_nat k) * delta)%Q.
Proof.
  intros Hd Hparent.
  eexists. split; [by eapply monitor_build_run |]. simpl.
  split; [done |]. split; [done |].
  intros k. unfold firingTime. simpl. ring.
Qed.

Lemma build_posts_repeating_observation_witness :
  ∃ s', Monitor.build {[Monitor.DELTA := 1%Q]} freshMonitor = (Returned tt, s')
        ∧ repeatingEvents (Monitor.process s')
          = [Repeating 0 1 None h_observe].
Proof.
  destruct (build_posts_repeating_observation Monitor.plainBuild
              {[Monitor.DELTA := 1%Q]} freshMonitor emptyProcess 1%Q)
    as (s' & Hrun & Hev & _);
    [vm_compute; reflexivity | reflexivity |].
  exists s'. split; [exact Hrun | exact Hev].
Defined.

(** [results] when the parent's dictionary has an item of its own under
    [TIMESERIES]: the item returned is the store, here [None], and the
    parent's item is gone. *)
Example results_over_parent_item :
  Monitor.results_with
    (Monitor.plainResults {[Monitor.TIMESERIES := Monitor.VNumber 1]})
    freshMonitor
  = (Returned {[Monitor.TIMESERIES := Monitor.VNone]}, freshMonitor).
Proof.
  unfold Monitor.results_with, bind, Monitor.inProcess, lift,
    Monitor.plainResults, ret, gets. simpl.
  by rewrite insert_singleton_eq.
Qed.

(** C9, as stated, fails: when the parent's dictionary has an item under
    [TIMESERIES], [results] overwrites it. *)
Lemma results_overwrites_counterexample :
  ¬ resultsKeepsParentEntries
      (Monitor.plainResults {[Monitor.TIMESERIES := Monitor.VNumber 1]})
      freshMonitor.
Proof.
  intros H.
  destruct (H {[Monitor.TIMESERIES := Monitor.VNumber 1]} emptyProcess)
    as (rc & s' & Hrun & Hincl); [reflexivity |].
  rewrite results_over_parent_item in Hrun. injection Hrun as <- _.
  pose proof (lookup_weaken _ _ Monitor.TIMESERIES (Monitor.VNumber 1)
                (lookup_singleton_eq _ _) Hincl) as Hk.
  rewrite lookup_singleton_eq in Hk. discriminate.
Qed.

(** C9 (amended): [results] returns the dictionary of the parent's
    [results] with the item under [TIMESERIES] set to the accumulated
    store: the dictionary of the sequences, one per locus and one for the
    observation times, when there is one, and [None] before the first
    observation.  Every item of the parent under another key is
    unchanged and no other key is added; an item that the parent has under
    [TIMESERIES] itself is overwritten.  The object keeps its store. *)
Theorem results_sets_time_series
    (parent : M Process (gmap string Monitor.value)) (s : Monitor.state)
    (rc0 : gmap string Monitor.value) (p1 : Process) :
  parent (Monitor.process s) = (Returned rc0, p1) →
  ∃ rc, Monitor.results_with parent s
        = (Returned rc, Monitor.mkMonitor p1 (Monitor._timeSeries s))
        ∧ (∀ ts, Monitor._timeSeries s = Some ts →
             rc !! Monitor.TIMESERIES = Some (Monitor.VSeries ts))
        ∧ (Monitor._timeSeries s = None →
           rc !! Monitor.TIMESERIES = Some Monitor.VNone)
        ∧ (∀ k, k ≠ Monitor.TIMESERIES → rc !! k = rc0 !! k)
        ∧ dom rc = {[Monitor.TIMESERIES]} ∪ dom rc0.
Proof.
  intros Hparent. eexists. split.
  - unfold Monitor.results_with, bind, Monitor.inProcess, lift.
    rewrite Hparent. reflexivity.
  - split; [| split; [| split]].
    + intros ts Hts. rewrite Hts. by rewrite lookup_insert_eq.
    + intros Hts. rewrite Hts. by rewrite lookup_insert_eq.
    + intros k Hk. by rewrite lookup_insert_ne.
    + by rewrite dom_insert_L.
Qed.

Lemma results_sets_time_series_witness :
  ∃ rc ts,
    Monitor.results_with
      (Monitor.plainResults
         {["elapsed_time" := Monitor.VNumber 3;
           Monitor.TIMESERIES := Monitor.VNumber 1]})
      observedOnce
    = (Returned rc,
       Monitor.mkMonitor (Monitor.process observedOnce)
         (Monitor._timeSeries observedOnce))
    ∧ rc !! Monitor.TIMESERIES = Some (Monitor.VSeries ts)
    ∧ ts !! Monitor.OBSERVATIONS = Some [Monitor.Time 0]
    ∧ ts !! SEIR.SI = Some [Monitor.Size 1]
    ∧ rc !! "elapsed_time" = Some (Monitor.VNumber 3).
Proof.
  destruct (results_sets_time_series
              (Monitor.plainResults
                 {["elapsed_time" := Monitor.VNumber 3;
                   Monitor.TIMESERIES := Monitor.VNumber 1]})
              observedOnce
              {["elapsed_time" := Monitor.VNumber 3;
                Monitor.TIMESERIES := Monitor.VNumber 1]}
              (Monitor.process observedOnce))
    as (rc & Hrun & Hstore & _ & Hother & _); [reflexivity |].
  exists rc, (default ∅ (Monitor._timeSeries observedOnce)).
  split; [exact Hrun |]. split; [| split; [| split]].
  - apply Hstore. vm_compute. reflexivity.
  - vm_compute. reflexivity.
  - vm_compute. reflexivity.
  - rewrite (Hother "elapsed_time"); [vm_compute; reflexivity |].
    intros Heq. apply (f_equal String.length) in Heq. vm_compute in Heq.
    lia.
Defined.

(** C10: when [results] is called after [reset], with no [observe] in
    between (a [build], returning or raising, may come in between), the
    dictionary it returns binds [TIMESERIES] to [None]. *)
Theorem results_before_first_observation (Process_reset : M Process unit)
    (Process_build : Params → M Process unit)
    (Process_results : M Process (gmap string Monitor.value))
    (s s1 s2 s3 : Monitor.state) (rc : gmap string Monitor.value) :
  Monitor.reset_with Process_reset s = (Returned tt, s1) →
  s2 = s1 ∨ (∃ params, s2 = (Monitor.build_with Process_build params s1).2) →
  Monitor.results_with Process_results s2 = (Returned rc, s3) →
  rc !! Monitor.TIMESERIES = Some Monitor.VNone.
Proof.
  intros Hreset Hbuild Hresults.
  assert (Monitor._timeSeries s1 = None) as H1.
  { revert Hreset. unfold Monitor.reset_with, bind, Monitor.inProcess, lift.
    destruct (Process_reset (Monitor.process s)) as [[[] | e] p1]; simpl.
    - by intros [= <-].
    - discriminate. }
  assert (Monitor._timeSeries s2 = None) as H2.
  { destruct Hbuild as [-> | [params ->]]; [done |].
    by rewrite monitor_build_keeps_timeSeries. }
  revert Hresults. unfold Monitor.results_with, bind, Monitor.inProcess, lift.
  destruct (Process_results (Monitor.process s2)) as [[rc0 | e] p1]; simpl.
  - rewrite H2. unfold ret. intros [= <- _]. by rewrite lookup_insert_eq.
  - discriminate.
Qed.

Lemma results_before_first_observation_witness :
  ∃ rc s3, Monitor.results
             (Monitor.build {[Monitor.DELTA := 1%Q]}
                (Monitor.reset
                   (Monitor.mkMonitor builtTwoNodes (Some ∅))).2).2
           = (Returned rc, s3)
           ∧ rc !! Monitor.TIMESERIES = Some Monitor.VNone.
Proof.
  eexists _, _. split; [reflexivity |].
  apply (results_before_first_observation Monitor.plainReset
           Monitor.plainBuild (Monitor.plainResults ∅)
           (Monitor.mkMonitor builtTwoNodes (Some ∅))
           (Monitor.reset (Monitor.mkMonitor builtTwoNodes (Some ∅))).2
           (Monitor.build {[Monitor.DELTA := 1%Q]}
              (Monitor.reset (Monitor.mkMonitor builtTwoNodes (Some ∅))).2).2
           (Monitor.results
              (Monitor.build {[Monitor.DELTA := 1%Q]}
                 (Monitor.reset
                    (Monitor.mkMonitor builtTwoNodes (Some ∅))).2).2).2).
  - reflexivity.
  - right. exists {[Monitor.DELTA := 1%Q]}. reflexivity.
  - reflexivity.
Defined.

(** *** The loops of [observe] *)

Lemma elem_of_locusNames (p : Process) (l : string) :
  l ∈ locusNames p ↔ l ∈ dom (loci p).
Proof.
  unfold locusNames. rewrite elem_of_dom, list_elem_of_fmap. split.
  - intros ([k L] & -> & Hin). apply elem_of_map_to_list in Hin. by exists L.
  - intros [L HL]. exists (l, L). split; [done |].
    by apply elem_of_map_to_list.
Qed.

Lemma NoDup_locusNames (p : Process) : NoDup (locusNames p).
Proof. apply NoDup_fst_map_to_list. Qed.

(** The first loop, [for l in self: self._timeSeries[l] = []]. *)
Lemma init_loop_run (names : list string) (p : Process)
    (ts : gmap string (list Monitor.sample)) :
  forM_ names (λ l, Monitor.setSeries l []) (Monitor.mkMonitor p (Some ts))
  = (Returned tt,
     Monitor.mkMonitor p (Some (foldl (λ acc l, <[l := []]> acc) ts names))).
Proof.
  revert ts. induction names as [| x names IH]; intros ts; [done |].
  simpl. unfold bind at 1. simpl. apply IH.
Qed.

Lemma lookup_init_loop (names : list string)
    (ts : gmap string (list Monitor.sample)) (k : string) :
  foldl (λ acc l, <[l := []]> acc) ts names !! k
  = if decide (k ∈ names) then Some [] else ts !! k.
Proof.
  revert ts. induction names as [| x names IH]; intros ts.
  - by rewrite decide_False by apply not_elem_of_nil.
  - etrans; [apply (IH (<[x := []]> ts)) |].
    destruct (decide (k ∈ names)) as [Hin | Hnin].
    + by rewrite decide_True by by right.
    + destruct (decide (k = x)) as [-> | Hne].
      * rewrite lookup_insert_eq. by rewrite decide_True by by left.
      * rewrite lookup_insert_ne by done.
        rewrite decide_False; [done |]. by intros [? | ?]%elem_of_cons.
Qed.

Lemma sampleLocus_run (p : Process) (ts : gmap string (list Monitor.sample))
    (l : string) (xs : list Monitor.sample) (L : locus) :
  ts !! l = Some xs → loci p !! l = Some L →
  Monitor.sampleLocus l (Monitor.mkMonitor p (Some ts))
  = (Returned tt,
     Monitor.mkMonitor p
       (Some (<[l := xs ++ [Monitor.Size (sizeOf p l)]]> ts))).
Proof.
  intros Hts HL.
  unfold Monitor.sampleLocus, Monitor.getSeries, Monitor.lenLocus, sizeOf, bind,
    gets, getitem. simpl. rewrite Hts. simpl. by rewrite HL.
Qed.

Lemma sampleLocus_missing (p : Process)
    (ts : gmap string (list Monitor.sample)) (l : string) :
  ts !! l = None →
  Monitor.sampleLocus l (Monitor.mkMonitor p (Some ts))
  = (Raised (KeyError l), Monitor.mkMonitor p (Some ts)).
Proof.
  intros Hts.
  unfold Monitor.sampleLocus, Monitor.getSeries, bind, gets, getitem. simpl.
  by rewrite Hts.
Qed.

(** The second loop when every tracked locus has its sequence. *)
Lemma sample_loop_run (names : list string) (p : Process)
    (ts : gmap string (list Monitor.sample)) :
  NoDup names →
  (∀ l, l ∈ names → is_Some (ts !! l)) →
  (∀ l, l ∈ names → is_Some (loci p !! l)) →
  ∃ ts', forM_ names Monitor.sampleLocus (Monitor.mkMonitor p (Some ts))
         = (Returned tt, Monitor.mkMonitor p (Some ts'))
         ∧ ∀ k, ts' !! k
                = if decide (k ∈ names)
                  then (λ xs, xs ++ [Monitor.Size (sizeOf p k)]) <$> ts !! k
                  else ts !! k.
Proof.
  revert ts. induction names as [| x names IH]; intros ts Hnd Hts Hloci.
  - exists ts. split; [done |]. intros k.
    by rewrite decide_False by apply not_elem_of_nil.
  - apply NoDup_cons in Hnd as [Hx Hnd].
    destruct (Hts x) as [xs Hxs]; [by left |].
    destruct (Hloci x) as [L HL]; [by left |].
    destruct (IH (<[x := xs ++ [Monitor.Size (sizeOf p x)]]> ts))
      as (ts' & Hrun & Hlook); [done | | |].
    + intros l Hl. destruct (decide (l = x)) as [-> | Hne].
      * rewrite lookup_insert_eq. by eexists.
      * rewrite lookup_insert_ne by done. apply Hts. by right.
    + intros l Hl. apply Hloci. by right.
    + exists ts'. split.
      * simpl. unfold bind at 1. by rewrite (sampleLocus_run _ _ _ xs L).
      * intros k. rewrite Hlook. destruct (decide (k = x)) as [-> | Hne].
        -- rewrite decide_False by done. rewrite lookup_insert_eq.
           rewrite decide_True by by left. by rewrite Hxs.
        -- rewrite lookup_insert_ne by done.
           destruct (decide (k ∈ names)) as [Hin | Hnin].
           ++ by rewrite decide_True by by right.
           ++ rewrite decide_False; [done |].
              by intros [? | ?]%elem_of_cons.
Qed.

(** The second loop when a tracked locus has no sequence: the loop raises
    [KeyError] at such a locus and the store keeps its keys. *)
Lemma sample_loop_missing (names : list string) (p : Process)
    (ts : gmap string (list Monitor.sample)) (l : string) :
  (∀ l', l' ∈ names → is_Some (loci p !! l')) →
  l ∈ names → ts !! l = None →
  ∃ k ts', forM_ names Monitor.sampleLocus (Monitor.mkMonitor p (Some ts))
           = (Raised (KeyError k), Monitor.mkMonitor p (Some ts'))
           ∧ ts !! k = None ∧ dom ts' = dom ts.
Proof.
  revert ts. induction names as [| x names IH]; intros ts Hloci Hl Hnone.
  - by apply not_elem_of_nil in Hl.
  - destruct (ts !! x) as [xs |] eqn:Hxs.
    + destruct (Hloci x) as [L HL]; [by left |].
      assert (l ≠ x) as Hne by (intros ->; congruence).
      destruct (IH (<[x := xs ++ [Monitor.Size (sizeOf p x)]]> ts))
        as (k & ts' & Hrun & Hk & Hdom).
      * intros l' Hl'. apply Hloci. by right.
      * by apply elem_of_cons in Hl as [? | ?].
      * by rewrite lookup_insert_ne.
      * exists k, ts'. split; [| split].
        -- simpl. unfold bind at 1. by rewrite (sampleLocus_run _ _ _ xs L).
        -- destruct (decide (k = x)) as [-> | Hkx].
           ++ by rewrite lookup_insert_eq in Hk.
           ++ by rewrite lookup_insert_ne in Hk.
        -- rewrite Hdom. apply dom_insert_lookup_L. by eexists.
    + exists x, ts. split; [| done].
      simpl. unfold bind at 1. by rewrite sampleLocus_missing.
Qed.

(** *** One observation *)

Lemma observe_none (p : Process) (t : Q) (e : option element) :
  Monitor.observe t e (Monitor.mkMonitor p None)
  = Monitor.observe t e
      (Monitor.mkMonitor p
         (Some (foldl (λ acc l, <[l := []]> acc)
                  (<[Monitor.OBSERVATIONS := []]> ∅) (locusNames p)))).
Proof.
  unfold Monitor.observe. unfold bind at 1 2. simpl.
  unfold bind at 1 2 3. simpl. unfold bind at 1. simpl.
  rewrite init_loop_run. unfold bind at 3. simpl. reflexivity.
Qed.

(** An observation on a store that has a sequence for the observation
    times and for every tracked locus. *)
Lemma observe_run (p : Process) (ts : gmap string (list Monitor.sample))
    (t : Q) (e : option element) :
  Monitor.OBSERVATIONS ∉ dom (loci p) →
  is_Some (ts !! Monitor.OBSERVATIONS) →
  (∀ l, l ∈ dom (loci p) → is_Some (ts !! l)) →
  ∃ ts', Monitor.observe t e (Monitor.mkMonitor p (Some ts))
         = (Returned tt, Monitor.mkMonitor p (Some ts'))
         ∧ ∀ k, ts' !! k
                = if decide (k ∈ dom (loci p))
                  then (λ xs, xs ++ [Monitor.Size (sizeOf p k)]) <$> ts !! k
                  else if decide (k = Monitor.OBSERVATIONS)
                       then (λ xs, xs ++ [Monitor.Time t]) <$> ts !! k
                       else ts !! k.
Proof.
  intros Hobs [ys Hys] Hts.
  destruct (sample_loop_run (locusNames p) p
              (<[Monitor.OBSERVATIONS := ys ++ [Monitor.Time t]]> ts))
    as (ts' & Hrun & Hlook).
  - apply NoDup_locusNames.
  - intros l Hl%elem_of_locusNames.
    rewrite lookup_insert_ne by (intros <-; done). by apply Hts.
  - intros l Hl%elem_of_locusNames. by apply elem_of_dom.
  - exists ts'. split.
    + unfold Monitor.observe. unfold bind at 1 2. simpl.
      unfold Monitor.appendSeries, Monitor.getSeries, getitem.
      unfold bind at 1 2 3. simpl. rewrite Hys. simpl.
      unfold bind at 1. simpl. exact Hrun.
    + intros k. rewrite Hlook.
      destruct (decide (k ∈ locusNames p)) as [Hin | Hnin].
      * assert (k ≠ Monitor.OBSERVATIONS) as Hne.
        { intros ->. by apply Hobs, elem_of_locusNames. }
        rewrite decide_True by by apply elem_of_locusNames.
        by rewrite lookup_insert_ne.
      * rewrite decide_False by by rewrite <- elem_of_locusNames.
        destruct (decide (k = Monitor.OBSERVATIONS)) as [-> | Hne].
        -- by rewrite lookup_insert_eq, Hys.
        -- by rewrite lookup_insert_ne.
Qed.

(** An observation extends the sequences that are there and adds none. *)
Lemma dom_after_observe (p : Process)
    (ts ts' : gmap string (list Monitor.sample)) (t : Q) :
  (∀ k, ts' !! k
        = if decide (k ∈ dom (loci p))
          then (λ xs, xs ++ [Monitor.Size (sizeOf p k)]) <$> ts !! k
          else if decide (k = Monitor.OBSERVATIONS)
               then (λ xs, xs ++ [Monitor.Time t]) <$> ts !! k
               else ts !! k) →
  dom ts' = dom ts.
Proof.
  intros Hlook. apply set_eq. intros k. rewrite !elem_of_dom, Hlook.
  repeat case_decide; by rewrite ?fmap_is_Some.
Qed.

(** One observation keeps the record of the observations made. *)
Lemma observe_step (names : gset string) (done : list (Q * Process))
    (t : Q) (p : Process) (v : option (gmap string (list Monitor.sample)))
    (e : option element) :
  Monitor.OBSERVATIONS ∉ names →
  dom (loci p) = names →
  recorded names done v →
  ∃ ts', Monitor.observe t e (Monitor.mkMonitor p v)
         = (Returned tt, Monitor.mkMonitor p (Some ts'))
         ∧ recorded names (done ++ [(t, p)]) (Some ts').
Proof.
  intros Hobs Hdom Hrec. destruct done as [| d done]; simpl in Hrec.
  - subst v. rewrite observe_none.
    set (ts0 := foldl _ _ _).
    assert (∀ k, ts0 !! k
                 = if decide (k ∈ dom (loci p)) then Some []
                   else if decide (k = Monitor.OBSERVATIONS) then Some []
                        else None) as Hts0.
    { intros k. unfold ts0. rewrite lookup_init_loop.
      destruct (decide (k ∈ locusNames p)) as [Hin | Hnin].
      - by rewrite decide_True by by apply elem_of_locusNames.
      - rewrite decide_False by by rewrite <- elem_of_locusNames.
        case_decide as Hk.
        + subst k. by rewrite lookup_insert_eq.
        + rewrite lookup_insert_ne by done. by rewrite lookup_empty. }
    destruct (observe_run p ts0 t e) as (ts' & Hrun & Hlook).
    + by rewrite Hdom.
    + rewrite Hts0.
      destruct (decide (Monitor.OBSERVATIONS ∈ dom (loci p)));
        [by rewrite Hdom in * |].
      by destruct (decide (Monitor.OBSERVATIONS = Monitor.OBSERVATIONS)).
    + intros l Hl. rewrite Hts0. by destruct (decide (l ∈ dom (loci p))).
    + exists ts'. split; [done |]. simpl. exists ts'. split; [done |].
      split; [| split].
      * apply set_eq. intros k.
        rewrite elem_of_dom, Hlook, Hts0, <- Hdom.
        rewrite elem_of_union, elem_of_singleton.
        destruct (decide (k ∈ dom (loci p))) as [Hin | Hnin];
          [| destruct (decide (k = Monitor.OBSERVATIONS)) as [Hk | Hk]];
          simpl.
        -- split; [by right | by eexists].
        -- split; [by left | by eexists].
        -- split; [by intros [? ?] | by intros [? | ?]].
      * rewrite Hlook, Hts0.
        destruct (decide (Monitor.OBSERVATIONS ∈ dom (loci p)));
          [by rewrite Hdom in * |].
        by destruct (decide (Monitor.OBSERVATIONS = Monitor.OBSERVATIONS)).
      * intros l Hl. rewrite Hlook, Hts0. rewrite <- Hdom in Hl.
        by destruct (decide (l ∈ dom (loci p))).
  - destruct Hrec as (ts & -> & Hdts & Htimes & Hsizes).
    destruct (observe_run p ts t e) as (ts' & Hrun & Hlook).
    + by rewrite Hdom.
    + by rewrite Htimes.
    + intros l Hl. rewrite Hsizes; [done | by rewrite <- Hdom].
    + exists ts'. split; [done |]. simpl. exists ts'. split; [done |].
      split; [| split].
      * by rewrite (dom_after_observe p ts ts' t).
      * rewrite Hlook.
        destruct (decide (Monitor.OBSERVATIONS ∈ dom (loci p)));
          [by rewrite Hdom in * |].
        destruct (decide (Monitor.OBSERVATIONS = Monitor.OBSERVATIONS));
          [| done].
        rewrite Htimes. simpl. by rewrite !fmap_app.
      * intros l Hl. rewrite Hlook.
        destruct (decide (l ∈ dom (loci p))); [| by rewrite Hdom in *].
        rewrite Hsizes by done. simpl. by rewrite fmap_app.
Qed.

(** A run of observations from a store that records the observations
    [done] so far. *)
Lemma observations_recorded (names : gset string) (obs done : list (Q * Process))
    (s : Monitor.state) :
  Monitor.OBSERVATIONS ∉ names →
  sameLoci names obs →
  recorded names done (Monitor._timeSeries s) →
  ∃ s', Monitor.observations obs s = (Returned tt, s')
        ∧ recorded names (done ++ obs) (Monitor._timeSeries s').
Proof.
  intros Hobs. revert done s.
  induction obs as [| [t p] obs IH]; intros done s Hsame Hrec.
  - exists s. split; [done |]. by rewrite app_nil_r.
  - apply Forall_cons in Hsame as [Hp Hsame]. simpl in Hp.
    destruct (observe_step names done t p (Monitor._timeSeries s) None)
      as (ts' & Hrun & Hrec'); [done .. |].
    destruct (IH (done ++ [(t, p)]) (Monitor.mkMonitor p (Some ts')))
      as (s' & Hrun' & Hrec''); [done | done |].
    exists s'. split.
    + simpl. unfold bind at 1. unfold modify. simpl.
      unfold bind at 1. rewrite Hrun. exact Hrun'.
    + by rewrite <- app_assoc in Hrec''.
Qed.

Lemma recorded_lockstep (names : gset string) (obs : list (Q * Process))
    (v : option (gmap string (list Monitor.sample))) :
  recorded names obs v → lockstep (length obs) v.
Proof.
  intros Hrec ts k xs -> Hk. destruct obs as [| o obs]; [done |].
  destruct Hrec as (ts' & [= <-] & Hdts & Htimes & Hsizes).
  assert (k ∈ dom ts) as Hin by (apply elem_of_dom; by eexists).
  rewrite Hdts, elem_of_union, elem_of_singleton in Hin.
  destruct Hin as [-> | Hin].
  - rewrite Htimes in Hk. apply (inj Some) in Hk as <-.
    by rewrite !length_fmap.
  - rewrite Hsizes in Hk by done. apply (inj Some) in Hk as <-.
    by rewrite length_fmap.
Qed.

(** An observation that meets a tracked locus without a sequence raises
    [KeyError] and gives the store no new key. *)
Lemma observe_missing (p : Process) (ts : gmap string (list Monitor.sample))
    (t : Q) (e : option element) (l : string) :
  l ∈ dom (loci p) → ts !! l = None →
  ∃ k ts', Monitor.observe t e (Monitor.mkMonitor p (Some ts))
           = (Raised (KeyError k), Monitor.mkMonitor p (Some ts'))
           ∧ ts !! k = None ∧ dom ts' = dom ts.
Proof.
  intros Hl Hnone.
  destruct (ts !! Monitor.OBSERVATIONS) as [ys |] eqn:Hys.
  - assert (l ≠ Monitor.OBSERVATIONS) as Hne by (intros ->; congruence).
    destruct (sample_loop_missing (locusNames p) p
                (<[Monitor.OBSERVATIONS := ys ++ [Monitor.Time t]]> ts) l)
      as (k & ts' & Hrun & Hk & Hdom).
    + intros l' Hl'%elem_of_locusNames. by apply elem_of_dom.
    + by apply elem_of_locusNames.
    + by rewrite lookup_insert_ne.
    + exists k, ts'. split; [| split].
      * unfold Monitor.observe. unfold bind at 1 2. simpl.
        unfold Monitor.appendSeries, Monitor.getSeries, getitem.
        unfold bind at 1 2 3. simpl. rewrite Hys. simpl.
        unfold bind at 1. simpl. exact Hrun.
      * destruct (decide (k = Monitor.OBSERVATIONS)) as [-> | Hko].
        -- by rewrite lookup_insert_eq in Hk.
        -- by rewrite lookup_insert_ne in Hk.
      * rewrite Hdom. apply dom_insert_lookup_L. by eexists.
  - exists Monitor.OBSERVATIONS, ts. split; [| done].
    unfold Monitor.observe. unfold bind at 1 2. simpl.
    unfold Monitor.appendSeries, Monitor.getSeries, getitem.
    unfold bind at 1 2 3. simpl. by rewrite Hys.
Qed.

(** One observation at time 0 with a tracked locus by the name of the
    observation-times key: the sequence under that key holds the time and
    the size of the locus, the other sequences hold one size. *)
Example observe_with_clashing_locus :
  ∃ s' ts,
    Monitor.observations [(0%Q, clashingLocus)] freshMonitor
    = (Returned tt, s')
    ∧ Monitor._timeSeries s' = Some ts
    ∧ ts !! Monitor.OBSERVATIONS = Some [Monitor.Time 0; Monitor.Size 1]
    ∧ ts !! SEIR.SI = Some [Monitor.Size 1]
    ∧ ts !! SEIR.SE = Some [Monitor.Size 0].
Proof.
  eexists _, _. split; [reflexivity |]. split; [reflexivity |].
  vm_compute. by repeat split.
Qed.

(** C3, as stated, fails: with a tracked locus by the name of the
    observation-times key, one observation leaves a sequence of two
    entries, the time and the size of that locus. *)
Lemma observations_lockstep_counterexample :
  ¬ observationsKeepLockstep [(0%Q, clashingLocus)] freshMonitor.
Proof.
  intros H.
  destruct (H (dom (loci clashingLocus))) as (s' & Hrun & Hlock);
    [by repeat constructor | reflexivity |].
  assert (s' = (Monitor.observations [(0%Q, clashingLocus)] freshMonitor).2)
    as -> by by rewrite Hrun.
  specialize (Hlock
    (default ∅ (Monitor._timeSeries
       (Monitor.observations [(0%Q, clashingLocus)] freshMonitor).2))
    Monitor.OBSERVATIONS [Monitor.Time 0; Monitor.Size 1]).
  discriminate Hlock; vm_compute; reflexivity.
Qed.

(** C3 (amended): when no tracked locus goes by the name of the
    observation-times key: after N invocations of [observe] following a
    reset, during which the set of tracked loci does not change, all of
    them return normally and every sequence of the store has length N:
    the store holds, under the observation-times key, the N observation
    times and, under each tracked locus, the N sizes of that locus at the
    same observations, in order, and no other key. A tracked locus that
    has no sequence in the store never gets one: the observation that
    meets it raises [KeyError] and leaves the store with the keys it
    had. *)
Theorem observations_in_lockstep (names : gset string)
    (obs : list (Q * Process)) (s : Monitor.state) :
  (Monitor._timeSeries s = None →
   Monitor.OBSERVATIONS ∉ names →
   sameLoci names obs →
   ∃ s', Monitor.observations obs s = (Returned tt, s')
         ∧ lockstep (length obs) (Monitor._timeSeries s')
         ∧ recorded names obs (Monitor._timeSeries s'))
  ∧ (∀ ts t e l,
       Monitor._timeSeries s = Some ts →
       l ∈ dom (loci (Monitor.process s)) →
       ts !! l = None →
       ∃ k s' ts', Monitor.observe t e s = (Raised (KeyError k), s')
                   ∧ ts !! k = None
                   ∧ Monitor._timeSeries s' = Some ts'
                   ∧ dom ts' = dom ts).
Proof.
  split.
  - intros Hreset Hobs Hsame.
    destruct (observations_recorded names obs [] s) as (s' & Hrun & Hrec);
      [done | done | done |].
    exists s'. split; [done |]. split; [| done].
    by apply (recorded_lockstep names).
  - intros ts t e l Hts Hl Hnone. destruct s as [p v]. simpl in *. subst v.
    destruct (observe_missing p ts t e l) as (k & ts' & Hrun & Hk & Hdom);
      [done | done |].
    by exists k, (Monitor.mkMonitor p (Some ts')), ts'.
Qed.

Lemma observations_in_lockstep_witness :
  (∃ s', Monitor.observations
           [(0%Q, builtTwoNodes); (1%Q, afterInfection)] freshMonitor
         = (Returned tt, s')
         ∧ lockstep 2 (Monitor._timeSeries s'))
  ∧ (∃ k s' ts',
       Monitor.observe 1 None
         (Monitor.mkMonitor builtTwoNodes
            (Some {[Monitor.OBSERVATIONS := [Monitor.Time 0]]}))
       = (Raised (KeyError k), s')
       ∧ Monitor._timeSeries s' = Some ts'
       ∧ dom ts' = {[Monitor.OBSERVATIONS]}).
Proof.
  split.
  - destruct (observations_in_lockstep (dom (loci builtTwoNodes))
                [(0%Q, builtTwoNodes); (1%Q, afterInfection)] freshMonitor)
      as [Hlock _].
    destruct Hlock as (s' & Hrun & Hlen & _).
    + reflexivity.
    + apply not_elem_of_dom. vm_compute. reflexivity.
    + repeat constructor.
    + exists s'. split; [exact Hrun | exact Hlen].
  - destruct (observations_in_lockstep ∅ []
                (Monitor.mkMonitor builtTwoNodes
                   (Some {[Monitor.OBSERVATIONS := [Monitor.Time 0]]})))
      as [_ Hmissing].
    destruct (Hmissing {[Monitor.OBSERVATIONS := [Monitor.Time 0]]} 1%Q None
                SEIR.SE) as (k & s' & ts' & Hrun & _ & Hts & Hdom).
    + reflexivity.
    + apply elem_of_dom. eexists. vm_compute. reflexivity.
    + vm_compute. reflexivity.
    + exists k, s', ts'. split; [exact Hrun |]. split; [exact Hts |].
      rewrite Hdom. apply dom_singleton_L.
Defined.

End Monitor_properties.

(** ** Further properties of [SEIR] *)

Section SEIR_further.
Import Framework Props.

(** X1: [build] returns normally only when the parent's build has returned
    normally and the dictionary holds all five parameters; when the
    parent's build raises, [build] raises the same exception and leaves the
    model as the parent's build left it. *)
Theorem build_returns_only_if (parent : Params → M Process unit)
    (params : Params) (s : Process) :
  (∀ s', SEIR.build_with parent params s = (Returned tt, s') →
         (∃ s1, parent params s = (Returned tt, s1))
         ∧ Forall (λ k, is_Some (params !! k)) seirParameters)
  ∧ (∀ ex s1, parent params s = (Raised ex, s1) →
              SEIR.build_with parent params s = (Raised ex, s1)).
Proof.
  split.
  - intros s'. unfold SEIR.build_with, bind, getitem.
    destruct (parent params s) as [[[] | e] s1]; [| discriminate].
    unfold seirParameters.
    destruct (params !! SEIR.P_EXPOSED) eqn:HE; [| discriminate].
    destruct (params !! SEIR.P_INFECT_ASYMPTOMATIC) eqn:HA; [| discriminate].
    destruct (params !! SEIR.P_INFECT_SYMPTOMATIC) eqn:HI; [| discriminate].
    destruct (params !! SEIR.P_SYMPTOMS) eqn:HS; [| discriminate].
    destruct (params !! SEIR.P_REMOVE) eqn:HR; [| discriminate].
    intros _. split; [by eexists |].
    repeat (constructor; [by eexists |]). constructor.
  - intros ex s1 Hparent. unfold SEIR.build_with, bind. by rewrite Hparent.
Qed.

Lemma build_returns_only_if_witness :
  (∃ s1, SEIR.plainBuild seirParams twoNodes = (Returned tt, s1))
  ∧ Forall (λ k, is_Some (seirParams !! k)) seirParameters.
Proof.
  apply (proj1 (build_returns_only_if SEIR.plainBuild seirParams twoNodes)
           builtTwoNodes).
  vm_compute. reflexivity.
Defined.

(** X2: [build] reads its five parameters before it registers anything: with
    a parameter missing it raises [KeyError] for the first one missing, in
    the order of reading, and leaves the model as the parent's build left
    it. *)
Theorem build_missing_parameter (parent : Params → M Process unit)
    (params : Params) (s s1 : Process) (k : string) :
  parent params s = (Returned tt, s1) →
  firstMissing params seirParameters = Some k →
  SEIR.build_with parent params s = (Raised (KeyError k), s1).
Proof.
  intros Hparent Hk.
  unfold SEIR.build_with, bind, getitem. rewrite Hparent.
  unfold firstMissing, seirParameters in Hk. simpl in Hk.
  repeat (match type of Hk with
          | context [params !! ?key] =>
              destruct (params !! key) as [? |]; simpl in Hk;
              [| by injection Hk as <-]
          end).
  discriminate.
Qed.

Lemma build_missing_parameter_witness :
  SEIR.build (delete SEIR.P_SYMPTOMS (delete SEIR.P_REMOVE seirParams))
    twoNodes
  = (Raised (KeyError SEIR.P_SYMPTOMS), twoNodes).
Proof.
  apply (build_missing_parameter SEIR.plainBuild).
  - reflexivity.
  - vm_compute. reflexivity.
Defined.

(** X3: [build] does not check [pExposed]: the four initial probabilities it
    registers are all probabilities exactly when [pExposed] is one. *)
Theorem build_probabilities_in_range (parent : Params → M Process unit)
    (params : Params) (s s1 : Process) (pExposed : Q) :
  params !! SEIR.P_EXPOSED = Some pExposed →
  Forall (λ k, is_Some (params !! k)) seirParameters →
  parent params s = (Returned tt, s1) →
  ∃ s' new, SEIR.build_with parent params s = (Returned tt, s')
            ∧ compartments s' = compartments s1 ++ new
            ∧ length new = 4%nat
            ∧ (Forall (λ c, isProbability c.2) new ↔ isProbability pExposed).
Proof.
  intros HE Hall Hparent. unfold seirParameters in Hall.
  apply Forall_cons in Hall as [_ Hall].
  apply Forall_cons in Hall as [[pA HA] Hall].
  apply Forall_cons in Hall as [[pI HI] Hall].
  apply Forall_cons in Hall as [[pS HS] Hall].
  apply Forall_cons in Hall as [[pR HR] _].
  eexists. exists (seirCompartments pExposed).
  split; [by eapply build_run |]. split; [done |]. split; [done |].
  unfold seirCompartments, isProbability. split.
  - intros Hall. apply Forall_cons in Hall as [_ Hall].
    by apply Forall_cons in Hall as [Hp _].
  - intros [H0 H1]. repeat constructor; simpl; try done.
    + apply round64_unit_interval; lra.
    + apply round64_unit_interval; lra.
Qed.

Lemma build_probabilities_in_range_witness :
  ∃ s' new, SEIR.build seirParams twoNodes = (Returned tt, s')
            ∧ compartments s' = new
            ∧ Forall (λ c, isProbability c.2) new.
Proof.
  destruct (build_probabilities_in_range SEIR.plainBuild seirParams twoNodes
              twoNodes (1 # 4)) as (s' & new & Hrun & Hc & _ & Hiff).
  - reflexivity.
  - repeat (constructor; [eexists; vm_compute; reflexivity |]). constructor.
  - reflexivity.
  - exists s', new. split; [exact Hrun |]. split; [exact Hc |].
    apply Hiff. split; vm_compute; discriminate.
Defined.

(** X4: The course of the disease at one node: over an edge (n, m) of the
    network, [infect], then [symptoms] and [remove] at n, all return
    normally and leave n in the REMOVED compartment and the edge occupied
    at the time of the infection; nothing else is changed.  Over a pair
    that is no edge of the network [infect] raises once n is exposed, and
    the other two handlers are not run. *)
Theorem infect_symptoms_remove (s : Process) (t1 t2 t3 : Q) (n m : node) :
  (isEdge s (n, m) = true →
   ∃ s', (SEIR.infect t1 (n, m) ;; SEIR.symptoms t2 n ;; SEIR.remove t3 n) s
         = (Returned tt, s')
         ∧ compartmentOf s' = <[n := SEIR.REMOVED]> (compartmentOf s)
         ∧ occupied s' = <[edgeKey (n, m) := t1]> (occupied s)
         ∧ sameSetup s s')
  ∧ (isEdge s (n, m) = false →
     ∃ ex s',
       (SEIR.infect t1 (n, m) ;; SEIR.symptoms t2 n ;; SEIR.remove t3 n) s
       = (Raised ex, s')
       ∧ compartmentOf s' = <[n := SEIR.EXPOSED]> (compartmentOf s)
       ∧ occupied s' = occupied s
       ∧ sameSetup s s').
Proof.
  split; intros He.
  - eexists. split.
    + unfold bind at 1. rewrite infect_run by done. reflexivity.
    + simpl. split; [by rewrite !insert_insert_eq |]. done.
  - destruct (infect_no_edge s t1 n m He) as [ex Hrun].
    exists ex. eexists. split.
    + unfold bind at 1. rewrite Hrun. reflexivity.
    + done.
Qed.

Lemma infect_symptoms_remove_witness :
  (∃ s', (SEIR.infect 0 (2, 1)%nat ;; SEIR.symptoms 1 2%nat ;;
          SEIR.remove 2 2%nat) builtTwoNodes
         = (Returned tt, s')
         ∧ compartmentOf s' !! 2%nat = Some SEIR.REMOVED
         ∧ occupiedAt s' (1, 2)%nat = Some 0%Q)
  ∧ (∃ ex s', (SEIR.infect 0 (2, 3)%nat ;; SEIR.symptoms 1 2%nat ;;
               SEIR.remove 2 2%nat) builtTwoNodes
              = (Raised ex, s')
              ∧ compartmentOf s' !! 2%nat = Some SEIR.EXPOSED).
Proof.
  split.
  - destruct (infect_symptoms_remove builtTwoNodes 0 1 2 2%nat 1%nat)
      as [Hedge _].
    destruct Hedge as (s' & Hrun & Hc & Ho & _); [vm_compute; reflexivity |].
    exists s'. split; [exact Hrun |]. split.
    + rewrite Hc. vm_compute. reflexivity.
    + unfold occupiedAt. rewrite Ho. vm_compute. reflexivity.
  - destruct (infect_symptoms_remove builtTwoNodes 0 1 2 2%nat 3%nat)
      as [_ Hnone].
    destruct Hnone as (ex & s' & Hrun & Hc & _); [vm_compute; reflexivity |].
    exists ex, s'. split; [exact Hrun |].
    rewrite Hc. vm_compute. reflexivity.
Defined.



(** X6: After [infect] over an edge delivered from the locus SE or SI of a
    model with the loci of [build], the edge is delivered from neither
    locus any more, whichever way round the pair names it: no second
    infection over it is due. *)
Theorem infect_takes_edge_out_of_loci (s : Process) (t : Q) (e : edge) :
  loci s !! SEIR.SE = Some (EdgeLocus SEIR.SUSCEPTIBLE SEIR.EXPOSED) →
  loci s !! SEIR.SI = Some (EdgeLocus SEIR.SUSCEPTIBLE SEIR.INFECTED) →
  deliveredFrom s SEIR.SE e ∨ deliveredFrom s SEIR.SI e →
  ∃ s', SEIR.infect t e s = (Returned tt, s')
        ∧ ¬ deliveredFrom s' SEIR.SE e
        ∧ ¬ deliveredFrom s' SEIR.SI e
        ∧ ¬ deliveredFrom s' SEIR.SE (e.2, e.1)
        ∧ ¬ deliveredFrom s' SEIR.SI (e.2, e.1).
Proof.
  intros HSE HSI Hfrom. destruct e as [sus inf].
  destruct (delivered_edge s sus inf HSE HSI Hfrom)
    as (He & Hsus & Hinf & Hne).
  eexists. split; [by apply infect_run |]. simpl.
  assert (∀ name r x,
            loci s !! name = Some (EdgeLocus SEIR.SUSCEPTIBLE r) →
            <[sus := SEIR.EXPOSED]> (compartmentOf s) !! x.1
            ≠ Some SEIR.SUSCEPTIBLE →
            ¬ deliveredFrom
                (mkProcess (compartments s) (loci s) (perElementEvents s)
                   (repeatingEvents s) (edges s)
                   (<[sus := SEIR.EXPOSED]> (compartmentOf s))
                   (<[edgeKey (sus, inf) := t]> (occupied s)))
                name x) as Hout.
  { intros name r x Hname Hx (L & HL & Hin). simpl in HL.
    rewrite Hname in HL. injection HL as <-.
    by apply elem_of_locusElements_edge in Hin as (_ & ? & _). }
  assert (<[sus := SEIR.EXPOSED]> (compartmentOf s) !! sus
          ≠ Some SEIR.SUSCEPTIBLE) as Hs
    by (rewrite lookup_insert_eq; discriminate).
  assert (<[sus := SEIR.EXPOSED]> (compartmentOf s) !! inf
          ≠ Some SEIR.SUSCEPTIBLE) as Hi.
  { rewrite lookup_insert_ne by done.
    destruct Hinf as [-> | ->]; discriminate. }
  repeat split; eapply Hout; done.
Qed.

Lemma infect_takes_edge_out_of_loci_witness :
  deliveredFrom builtTwoNodes SEIR.SI (2, 1)%nat
  ∧ ∃ s', SEIR.infect 0 (2, 1)%nat builtTwoNodes = (Returned tt, s')
          ∧ ¬ deliveredFrom s' SEIR.SI (2, 1)%nat
          ∧ ¬ deliveredFrom s' SEIR.SE (1, 2)%nat.
Proof.
  assert (deliveredFrom builtTwoNodes SEIR.SI (2, 1)%nat) as Hfrom.
  { exists (EdgeLocus SEIR.SUSCEPTIBLE SEIR.INFECTED).
    split; [vm_compute; reflexivity |].
    assert (locusElements builtTwoNodes
              (EdgeLocus SEIR.SUSCEPTIBLE SEIR.INFECTED)
            = [EEdge (2, 1)%nat]) as -> by (vm_compute; reflexivity).
    constructor. }
  split; [exact Hfrom |].
  destruct (infect_takes_edge_out_of_loci builtTwoNodes 0 (2, 1)%nat)
    as (s' & Hrun & _ & HSI & HSE & _).
  - vm_compute. reflexivity.
  - vm_compute. reflexivity.
  - by right.
  - exists s'. split; [exact Hrun |]. split; [exact HSI | exact HSE].
Defined.

(** The size of a node locus when one node changes its label. *)
Lemma length_filter_Permutation {A} (P : A → bool) (l l' : list A) :
  l ≡ₚ l' → length (List.filter P l) = length (List.filter P l').
Proof.
  induction 1 as [| x l l' _ IH | x y l | l l' l'' _ IH1 _ IH2]; simpl.
  - done.
  - destruct (P x); simpl; by rewrite IH.
  - by destruct (P x), (P y).
  - by rewrite IH1.
Qed.

Lemma node_locus_size_insert (s : Process) (n : node) (c0 c c' : string) :
  compartmentOf s !! n = Some c0 →
  (locusLen (mkProcess (compartments s) (loci s) (perElementEvents s)
               (repeatingEvents s) (edges s)
               (<[n := c]> (compartmentOf s)) (occupied s))
     (NodeLocus c')
   + (if bool_decide (c0 = c') then 1 else 0)
   = locusLen s (NodeLocus c') + (if bool_decide (c = c') then 1 else 0))%nat.
Proof.
  intros Hn. unfold locusLen, locusElements. simpl. rewrite !length_fmap.
  rewrite <- (insert_delete_eq (compartmentOf s) n c).
  rewrite <- (insert_delete_id (compartmentOf s) n c0) at 2 by done.
  rewrite !(length_filter_Permutation _ _ _
              (map_to_list_insert (delete n (compartmentOf s)) n _
                 (lookup_delete_eq _ _))).
  simpl. unfold inCompartment. simpl.
  destruct (bool_decide (c = c')), (bool_decide (c0 = c')); simpl; lia.
Qed.

(** X7: [symptoms] at an EXPOSED node takes one node off the locus of EXPOSED
    nodes and adds one to the locus of INFECTED nodes; [remove] at an
    INFECTED node takes one node off the locus of INFECTED nodes; the node
    loci of the other compartments keep their sizes. *)
Theorem symptoms_and_remove_shift_sizes (s : Process) (t : Q) (n : node) :
  (compartmentOf s !! n = Some SEIR.EXPOSED →
   ∃ s', SEIR.symptoms t n s = (Returned tt, s')
         ∧ locusLen s (NodeLocus SEIR.EXPOSED)
           = S (locusLen s' (NodeLocus SEIR.EXPOSED))
         ∧ locusLen s' (NodeLocus SEIR.INFECTED)
           = S (locusLen s (NodeLocus SEIR.INFECTED))
         ∧ ∀ c, c ≠ SEIR.EXPOSED → c ≠ SEIR.INFECTED →
             locusLen s' (NodeLocus c) = locusLen s (NodeLocus c))
  ∧ (compartmentOf s !! n = Some SEIR.INFECTED →
     ∃ s', SEIR.remove t n s = (Returned tt, s')
           ∧ locusLen s (NodeLocus SEIR.INFECTED)
             = S (locusLen s' (NodeLocus SEIR.INFECTED))
           ∧ locusLen s' (NodeLocus SEIR.REMOVED)
             = S (locusLen s (NodeLocus SEIR.REMOVED))
           ∧ ∀ c, c ≠ SEIR.INFECTED → c ≠ SEIR.REMOVED →
               locusLen s' (NodeLocus c) = locusLen s (NodeLocus c)).
Proof.
  split; intros Hn; (eexists; split; [reflexivity |]);
    unfold changeCompartment, modify; simpl.
  - pose proof (node_locus_size_insert s n _ SEIR.INFECTED SEIR.EXPOSED Hn)
      as HE.
    pose proof (node_locus_size_insert s n _ SEIR.INFECTED SEIR.INFECTED Hn)
      as HI.
    rewrite bool_decide_eq_true_2 in HE by done.
    rewrite bool_decide_eq_false_2 in HE by discriminate.
    rewrite bool_decide_eq_false_2 in HI by discriminate.
    rewrite bool_decide_eq_true_2 in HI by done.
    split; [lia |]. split; [lia |]. intros c HcE HcI.
    pose proof (node_locus_size_insert s n _ SEIR.INFECTED c Hn) as Hc.
    rewrite !bool_decide_eq_false_2 in Hc by congruence. lia.
  - pose proof (node_locus_size_insert s n _ SEIR.REMOVED SEIR.INFECTED Hn)
      as HI.
    pose proof (node_locus_size_insert s n _ SEIR.REMOVED SEIR.REMOVED Hn)
      as HR.
    rewrite bool_decide_eq_true_2 in HI by done.
    rewrite bool_decide_eq_false_2 in HI by discriminate.
    rewrite bool_decide_eq_false_2 in HR by discriminate.
    rewrite bool_decide_eq_true_2 in HR by done.
    split; [lia |]. split; [lia |]. intros c HcI HcR.
    pose proof (node_locus_size_insert s n _ SEIR.REMOVED c Hn) as Hc.
    rewrite !bool_decide_eq_false_2 in Hc by congruence. lia.
Qed.

Lemma symptoms_and_remove_shift_sizes_witness :
  (∃ s', SEIR.symptoms 1 2%nat afterInfection = (Returned tt, s')
         ∧ locusLen afterInfection (NodeLocus SEIR.EXPOSED)
           = S (locusLen s' (NodeLocus SEIR.EXPOSED)))
  ∧ (∃ s', SEIR.remove 1 1%nat builtTwoNodes = (Returned tt, s')
           ∧ locusLen s' (NodeLocus SEIR.REMOVED)
             = S (locusLen builtTwoNodes (NodeLocus SEIR.REMOVED))).
Proof.
  split.
  - destruct (symptoms_and_remove_shift_sizes afterInfection 1 2%nat)
      as [Hsymptoms _].
    destruct Hsymptoms as (s' & Hrun & HE & _); [vm_compute; reflexivity |].
    exists s'. split; [exact Hrun | exact HE].
  - destruct (symptoms_and_remove_shift_sizes builtTwoNodes 1 1%nat)
      as [_ Hremove].
    destruct Hremove as (s' & Hrun & _ & HR & _); [vm_compute; reflexivity |].
    exists s'. split; [exact Hrun | exact HR].
Defined.

End SEIR_further.

(** ** Further properties of [Monitor] *)

Section Monitor_further.
Import Framework Props.

(** The second loop of [observe] on any store: whatever its outcome, the
    store keeps its keys, every sequence is extended at its end, the
    sequences of other keys stay as they are, and the only exception is
    the [KeyError] of a name without a sequence. *)
Lemma sample_loop_frame (names : list string) (p : Process)
    (ts : gmap string (list Monitor.sample)) :
  (∀ l, l ∈ names → is_Some (loci p !! l)) →
  ∃ o ts', forM_ names Monitor.sampleLocus (Monitor.mkMonitor p (Some ts))
           = (o, Monitor.mkMonitor p (Some ts'))
           ∧ dom ts' = dom ts
           ∧ (∀ k xs, ts !! k = Some xs → ∃ ys, ts' !! k = Some (xs ++ ys))
           ∧ (∀ k, k ∉ names → ts' !! k = ts !! k)
           ∧ (o = Returned tt
              ∨ ∃ k, o = Raised (KeyError k) ∧ k ∈ names ∧ ts !! k = None).
Proof.
  revert ts. induction names as [| x names IH]; intros ts Hloci.
  - exists (Returned tt), ts. split; [done |]. split; [done |].
    split; [| split; [done | by left]].
    intros k xs Hk. exists []. by rewrite app_nil_r.
  - destruct (ts !! x) as [xs |] eqn:Hxs.
    + destruct (Hloci x) as [L HL]; [by left |].
      destruct (IH (<[x := xs ++ [Monitor.Size (sizeOf p x)]]> ts))
        as (o & ts' & Hrun & Hdom & Hext & Hout & Ho).
      { intros l Hl. apply Hloci. by right. }
      exists o, ts'. split; [| split; [| split; [| split]]].
      * simpl. unfold bind at 1. by rewrite (sampleLocus_run _ _ _ xs L).
      * rewrite Hdom. apply dom_insert_lookup_L. by eexists.
      * intros k zs Hk. destruct (decide (k = x)) as [-> | Hne].
        -- rewrite Hxs in Hk. injection Hk as <-.
           destruct (Hext x (xs ++ [Monitor.Size (sizeOf p x)])) as [ys Hys];
             [by rewrite lookup_insert_eq |].
           exists ([Monitor.Size (sizeOf p x)] ++ ys).
           by rewrite Hys, <- app_assoc.
        -- apply Hext. by rewrite lookup_insert_ne.
      * intros k Hk. apply not_elem_of_cons in Hk as [Hne Hk].
        rewrite Hout by done. by rewrite lookup_insert_ne.
      * destruct Ho as [-> | (k & -> & Hk & Hnone)]; [by left |].
        right. exists k. split; [done |]. split; [by right |].
        destruct (decide (k = x)) as [-> | Hne].
        -- by rewrite lookup_insert_eq in Hnone.
        -- by rewrite lookup_insert_ne in Hnone.
    + exists (Raised (KeyError x)), ts. split; [| split; [done | split]].
      * simpl. unfold bind at 1. by rewrite sampleLocus_missing.
      * intros k zs Hk. exists []. by rewrite app_nil_r.
      * split; [done |]. right. exists x. split; [done |].
        split; [by left | done].
Qed.

(** [observe] on a store that is there: the time goes to the sequence of
    the observation times, then the second loop runs. *)
Lemma observe_on_store (p : Process) (ts : gmap string (list Monitor.sample))
    (t : Q) (e : option element) :
  Monitor.observe t e (Monitor.mkMonitor p (Some ts))
  = match ts !! Monitor.OBSERVATIONS with
    | Some ys =>
        forM_ (locusNames p) Monitor.sampleLocus
          (Monitor.mkMonitor p
             (Some (<[Monitor.OBSERVATIONS := ys ++ [Monitor.Time t]]> ts)))
    | None =>
        (Raised (KeyError Monitor.OBSERVATIONS),
         Monitor.mkMonitor p (Some ts))
    end.
Proof.
  unfold Monitor.observe. unfold bind at 1 2. simpl.
  unfold Monitor.appendSeries, Monitor.getSeries, getitem.
  unfold bind at 1 2 3. simpl.
  destruct (ts !! Monitor.OBSERVATIONS) as [ys |]; simpl; [| done].
  unfold bind at 1. simpl. reflexivity.
Qed.

(** [observe] on a store that is there, whatever its outcome. *)
Lemma observe_frame (p : Process) (ts : gmap string (list Monitor.sample))
    (t : Q) (e : option element) :
  ∃ o ts', Monitor.observe t e (Monitor.mkMonitor p (Some ts))
           = (o, Monitor.mkMonitor p (Some ts'))
           ∧ dom ts' = dom ts
           ∧ (∀ k xs, ts !! k = Some xs → ∃ ys, ts' !! k = Some (xs ++ ys))
           ∧ (o = Returned tt
              ∨ ∃ k, o = Raised (KeyError k) ∧ ts !! k = None
                     ∧ (k = Monitor.OBSERVATIONS ∨ k ∈ dom (loci p))).
Proof.
  rewrite observe_on_store.
  destruct (ts !! Monitor.OBSERVATIONS) as [ys |] eqn:Hys.
  - destruct (sample_loop_frame (locusNames p) p
                (<[Monitor.OBSERVATIONS := ys ++ [Monitor.Time t]]> ts))
      as (o & ts' & Hrun & Hdom & Hext & _ & Ho).
    { intros l Hl%elem_of_locusNames. by apply elem_of_dom. }
    exists o, ts'. split; [done |]. split; [| split].
    + rewrite Hdom. apply dom_insert_lookup_L. by eexists.
    + intros k zs Hk.
      destruct (decide (k = Monitor.OBSERVATIONS)) as [-> | Hne].
      * rewrite Hys in Hk. injection Hk as <-.
        destruct (Hext Monitor.OBSERVATIONS (ys ++ [Monitor.Time t]))
          as [ws Hws]; [by rewrite lookup_insert_eq |].
        exists ([Monitor.Time t] ++ ws). by rewrite Hws, <- app_assoc.
      * apply Hext. by rewrite lookup_insert_ne.
    + destruct Ho as [-> | (k & -> & Hk & Hnone)]; [by left |].
      right. exists k. split; [done |].
      destruct (decide (k = Monitor.OBSERVATIONS)) as [-> | Hne].
      * by rewrite lookup_insert_eq in Hnone.
      * rewrite lookup_insert_ne in Hnone by done.
        split; [done |]. right. by apply elem_of_locusNames.
  - exists (Raised (KeyError Monitor.OBSERVATIONS)), ts.
    split; [done |]. split; [done |]. split.
    + intros k zs Hk. exists []. by rewrite app_nil_r.
    + right. exists Monitor.OBSERVATIONS. split; [done |]. split; [done |].
      by left.
Qed.

(** The store that the first observation sets up before it samples. *)
Lemma lookup_initial_store (p : Process) (k : string) :
  foldl (λ (acc : gmap string (list Monitor.sample)) l, <[l := []]> acc)
    (<[Monitor.OBSERVATIONS := []]> ∅) (locusNames p) !! k
  = if decide (k = Monitor.OBSERVATIONS ∨ k ∈ dom (loci p)) then Some []
    else None.
Proof.
  rewrite lookup_init_loop.
  destruct (decide (k ∈ locusNames p)) as [Hin | Hnin].
  - rewrite decide_True; [done |]. right. by apply elem_of_locusNames.
  - destruct (decide (k = Monitor.OBSERVATIONS)) as [-> | Hne].
    + rewrite lookup_insert_eq. rewrite decide_True; [done | by left].
    + rewrite lookup_insert_ne, lookup_empty by done.
      rewrite decide_False; [done |].
      intros [? | Hin%elem_of_locusNames]; done.
Qed.

(** The first observation: it returns and leaves a store. *)
Lemma observe_first_run (p : Process) (t : Q) (e : option element) :
  ∃ ts', Monitor.observe t e (Monitor.mkMonitor p None)
         = (Returned tt, Monitor.mkMonitor p (Some ts'))
         ∧ dom ts' = {[Monitor.OBSERVATIONS]} ∪ dom (loci p).
Proof.
  rewrite observe_none. set (ts0 := foldl _ _ _).
  assert (∀ k, ts0 !! k
               = if decide (k = Monitor.OBSERVATIONS ∨ k ∈ dom (loci p))
                 then Some []
                 else None) as Hts0
    by (intros k; apply lookup_initial_store).
  destruct (observe_frame p ts0 t e) as (o & ts' & Hrun & Hdom & _ & Ho).
  exists ts'. split.
  - destruct Ho as [-> | (k & -> & Hnone & Hk)]; [done |].
    rewrite Hts0 in Hnone. by rewrite decide_True in Hnone.
  - rewrite Hdom. apply set_eq. intros k.
    rewrite elem_of_dom, Hts0, elem_of_union, elem_of_singleton.
    destruct (decide (k = Monitor.OBSERVATIONS ∨ k ∈ dom (loci p)))
      as [Hk | Hk].
    + split; [done | by eexists].
    + split; [by intros [? ?] | done].
Qed.

(** X8: [observe] leaves the framework state of the object alone, whatever
    its outcome: sampling has no effect on the model that is sampled. *)
Theorem observe_keeps_process (s : Monitor.state) (t : Q)
    (e : option element) :
  Monitor.process (Monitor.observe t e s).2 = Monitor.process s.
Proof.
  destruct s as [p [ts |]].
  - destruct (observe_frame p ts t e) as (o & ts' & Hrun & _).
    by rewrite Hrun.
  - destruct (observe_first_run p t e) as (ts' & Hrun & _). by rewrite Hrun.
Qed.

(** X9: [observe] returns normally exactly when there is no store yet, or the
    store has a sequence for the observation times and for every tracked
    locus. When it raises, the exception is the [KeyError] of a key that
    the store lacks; the subscripts on [_timeSeries] never meet [None]. *)
Theorem observe_returns_iff (s : Monitor.state) (t : Q) (e : option element) :
  ((∃ s', Monitor.observe t e s = (Returned tt, s'))
   ↔ match Monitor._timeSeries s with
     | None => True
     | Some ts =>
         is_Some (ts !! Monitor.OBSERVATIONS)
         ∧ ∀ l, l ∈ dom (loci (Monitor.process s)) → is_Some (ts !! l)
     end)
  ∧ (∀ ex s', Monitor.observe t e s = (Raised ex, s') →
       ∃ k ts, ex = KeyError k ∧ Monitor._timeSeries s = Some ts
               ∧ ts !! k = None).
Proof.
  destruct s as [p [ts |]]; simpl.
  - destruct (observe_frame p ts t e) as (o & ts' & Hrun & _ & _ & Ho).
    split; [split |].
    + intros [s' Hret]. split.
      * destruct (ts !! Monitor.OBSERVATIONS) as [ys |] eqn:Hys;
          [by eexists |].
        rewrite observe_on_store, Hys in Hret. discriminate.
      * intros l Hl. destruct (ts !! l) as [xs |] eqn:Hxs; [by eexists |].
        destruct (observe_missing p ts t e l) as (k & ts'' & Hmiss & _);
          [done | done |].
        rewrite Hmiss in Hret. discriminate.
    + intros [[ys Hys] Hloci].
      destruct Ho as [-> | (k & -> & Hnone & [-> | Hk])].
      * by eexists.
      * congruence.
      * destruct (Hloci k Hk) as [xs Hxs]. congruence.
    + intros ex s' Hraise. rewrite Hrun in Hraise.
      destruct Ho as [-> | (k & -> & Hnone & _)]; [discriminate |].
      injection Hraise as <- _. by exists k, ts.
  - destruct (observe_first_run p t e) as (ts' & Hrun & _).
    split; [split; [done | by eexists] |].
    intros ex s' Hraise. rewrite Hrun in Hraise. discriminate.
Qed.

Lemma observe_returns_iff_witness :
  (∃ s', Monitor.observe 0 None (Monitor.mkMonitor builtTwoNodes None)
         = (Returned tt, s'))
  ∧ ¬ (∃ s', Monitor.observe 1 None
               (Monitor.mkMonitor builtTwoNodes
                  (Some {[Monitor.OBSERVATIONS := [Monitor.Time 0]]}))
             = (Returned tt, s')).
Proof.
  split.
  - by apply (observe_returns_iff (Monitor.mkMonitor builtTwoNodes None)).
  - intros Hret.
    apply (observe_returns_iff
             (Monitor.mkMonitor builtTwoNodes
                (Some {[Monitor.OBSERVATIONS := [Monitor.Time 0]]})))
      in Hret as [_ Hloci].
    destruct (Hloci SEIR.SE) as [xs Hxs].
    + apply elem_of_dom. eexists. vm_compute. reflexivity.
    + vm_compute in Hxs. discriminate.
Defined.

(** X11: Once the store is there, an observation, returning or raising, adds
    no key to it and removes none, and it changes each sequence only by
    extending it at its end: what has been recorded stays. *)
Theorem observe_extends_store (s : Monitor.state) (t : Q)
    (e : option element) (ts : gmap string (list Monitor.sample)) :
  Monitor._timeSeries s = Some ts →
  ∃ ts', Monitor._timeSeries (Monitor.observe t e s).2 = Some ts'
         ∧ dom ts' = dom ts
         ∧ ∀ k xs, ts !! k = Some xs → ∃ ys, ts' !! k = Some (xs ++ ys).
Proof.
  destruct s as [p v]. simpl. intros ->.
  destruct (observe_frame p ts t e) as (o & ts' & Hrun & Hdom & Hext & _).
  exists ts'. by rewrite Hrun.
Qed.

Lemma observe_extends_store_witness :
  ∃ ts', Monitor._timeSeries
           (Monitor.observe 1 None
              (Monitor.mkMonitor builtTwoNodes
                 (Some {[Monitor.OBSERVATIONS := [Monitor.Time 0]]}))).2
         = Some ts'
         ∧ dom ts' = {[Monitor.OBSERVATIONS]}
         ∧ ∃ ys, ts' !! Monitor.OBSERVATIONS = Some ([Monitor.Time 0] ++ ys).
Proof.
  destruct (observe_extends_store
              (Monitor.mkMonitor builtTwoNodes
                 (Some {[Monitor.OBSERVATIONS := [Monitor.Time 0]]}))
              1 None {[Monitor.OBSERVATIONS := [Monitor.Time 0]]})
    as (ts' & Hts & Hdom & Hext); [reflexivity |].
  exists ts'. split; [exact Hts |]. split.
  - rewrite Hdom. apply dom_singleton_L.
  - apply Hext. vm_compute. reflexivity.
Defined.

(** X12: With no tracked locus by the name of the observation-times key and
    a store that has the sequence of the observation times: an observation
    that fails at a tracked locus without a sequence has recorded its time
    already, so that the sequence of the observation times is one entry
    ahead of the observations that were completed. *)
Theorem failed_observe_records_time (p : Process)
    (ts : gmap string (list Monitor.sample)) (t : Q) (e : option element)
    (l : string) (ys : list Monitor.sample) :
  Monitor.OBSERVATIONS ∉ dom (loci p) →
  ts !! Monitor.OBSERVATIONS = Some ys →
  l ∈ dom (loci p) → ts !! l = None →
  ∃ k ts', Monitor.observe t e (Monitor.mkMonitor p (Some ts))
           = (Raised (KeyError k), Monitor.mkMonitor p (Some ts'))
           ∧ ts' !! Monitor.OBSERVATIONS = Some (ys ++ [Monitor.Time t]).
Proof.
  intros Hobs Hys Hl Hnone.
  assert (l ≠ Monitor.OBSERVATIONS) as Hne by (intros ->; congruence).
  rewrite observe_on_store, Hys.
  destruct (sample_loop_missing (locusNames p) p
              (<[Monitor.OBSERVATIONS := ys ++ [Monitor.Time t]]> ts) l)
    as (k & ts' & Hrun & _ & _).
  { intros l' Hl'%elem_of_locusNames. by apply elem_of_dom. }
  { by apply elem_of_locusNames. }
  { by rewrite lookup_insert_ne. }
  destruct (sample_loop_frame (locusNames p) p
              (<[Monitor.OBSERVATIONS := ys ++ [Monitor.Time t]]> ts))
    as (o & ts'' & Hrun' & _ & _ & Hout & _).
  { intros l' Hl'%elem_of_locusNames. by apply elem_of_dom. }
  rewrite Hrun in Hrun'. injection Hrun' as _ <-.
  exists k, ts'. split; [done |].
  rewrite Hout by by rewrite elem_of_locusNames.
  by rewrite lookup_insert_eq.
Qed.

Lemma failed_observe_records_time_witness :
  ∃ k ts', Monitor.observe 1 None
             (Monitor.mkMonitor builtTwoNodes
                (Some {[Monitor.OBSERVATIONS := [Monitor.Time 0]]}))
           = (Raised (KeyError k), Monitor.mkMonitor builtTwoNodes (Some ts'))
           ∧ ts' !! Monitor.OBSERVATIONS
             = Some [Monitor.Time 0; Monitor.Time 1].
Proof.
  apply (failed_observe_records_time builtTwoNodes
           {[Monitor.OBSERVATIONS := [Monitor.Time 0]]} 1 None SEIR.SE
           [Monitor.Time 0]).
  - apply not_elem_of_dom. vm_compute. reflexivity.
  - vm_compute. reflexivity.
  - apply elem_of_dom. eexists. vm_compute. reflexivity.
  - vm_compute. reflexivity.
Defined.

(** X10: The first observation after a reset returns normally whatever the
    loci are called, and the store it creates has exactly one key for the
    observation times and one for each tracked locus. *)
Theorem first_observation_creates_store (p : Process) (t : Q)
    (e : option element) :
  ∃ ts', Monitor.observe t e (Monitor.mkMonitor p None)
         = (Returned tt, Monitor.mkMonitor p (Some ts'))
         ∧ dom ts' = {[Monitor.OBSERVATIONS]} ∪ dom (loci p)
         ∧ ∃ ys, ts' !! Monitor.OBSERVATIONS = Some (Monitor.Time t :: ys).
Proof.
  destruct (observe_first_run p t e) as (ts' & Hrun & Hdom).
  exists ts'. split; [done |]. split; [done |].
  revert Hrun. rewrite observe_none. set (ts0 := foldl _ _ _).
  assert (ts0 !! Monitor.OBSERVATIONS = Some []) as Hts0.
  { unfold ts0. rewrite lookup_initial_store.
    rewrite decide_True; [done | by left]. }
  rewrite observe_on_store, Hts0. simpl.
  destruct (sample_loop_frame (locusNames p) p
              (<[Monitor.OBSERVATIONS := [Monitor.Time t]]> ts0))
    as (o & ts'' & Hrun' & _ & Hext & _).
  { intros l Hl%elem_of_locusNames. by apply elem_of_dom. }
  rewrite Hrun'. intros [= _ <-].
  destruct (Hext Monitor.OBSERVATIONS [Monitor.Time t]) as [ys Hys];
    [by rewrite lookup_insert_eq |].
  by exists ys.
Qed.

(** X13: [reset] throws away what was recorded: a run of observations after
    a reset goes as it goes on a new monitor, whatever the object had
    recorded and whatever its framework state was. *)
Theorem observations_after_reset (Process_reset : M Process unit)
    (s s1 : Monitor.state) (o : Q * Process) (obs : list (Q * Process)) :
  Monitor.reset_with Process_reset s = (Returned tt, s1) →
  Monitor.observations (o :: obs) s1
  = Monitor.observations (o :: obs) (Monitor.mkMonitor emptyProcess None).
Proof.
  intros Hreset.
  assert (Monitor._timeSeries s1 = None) as H1.
  { revert Hreset. unfold Monitor.reset_with, bind, Monitor.inProcess, lift.
    destruct (Process_reset (Monitor.process s)) as [[[] | ex] p1]; simpl.
    - by intros [= <-].
    - discriminate. }
  destruct s1 as [p1 v1], o as [t p]. simpl in H1. subst v1.
  simpl. unfold bind at 1 3. unfold modify. simpl. reflexivity.
Qed.

Lemma observations_after_reset_witness :
  Monitor.observations [(1%Q, afterInfection)]
    (Monitor.reset
       (Monitor.mkMonitor builtTwoNodes
          (Some {[Monitor.OBSERVATIONS := [Monitor.Time 0]]}))).2
  = Monitor.observations [(1%Q, afterInfection)]
      (Monitor.mkMonitor emptyProcess None).
Proof.
  apply (observations_after_reset Monitor.plainReset
           (Monitor.mkMonitor builtTwoNodes
              (Some {[Monitor.OBSERVATIONS := [Monitor.Time 0]]}))).
  reflexivity.
Defined.

(** X14: [results] after a run of observations: with no tracked locus by the
    name of the observation-times key and the tracked loci unchanged, the
    dictionary that [results] returns holds, under [TIMESERIES], the store
    with the times and the sizes of all the observations of the run. *)
Theorem results_after_observations
    (parent : M Process (gmap string Monitor.value)) (names : gset string)
    (o : Q * Process) (obs : list (Q * Process)) (s : Monitor.state) :
  (∀ p, ∃ rc0 p', parent p = (Returned rc0, p')) →
  Monitor._timeSeries s = None →
  Monitor.OBSERVATIONS ∉ names →
  sameLoci names (o :: obs) →
  ∃ rc s' ts,
    (Monitor.observations (o :: obs) ;; Monitor.results_with parent) s
    = (Returned rc, s')
    ∧ rc !! Monitor.TIMESERIES = Some (Monitor.VSeries ts)
    ∧ Monitor._timeSeries s' = Some ts
    ∧ recorded names (o :: obs) (Some ts).
Proof.
  intros Hparent Hreset Hobs Hsame.
  destruct (observations_recorded names (o :: obs) [] s)
    as (s1 & Hrun & Hrec); [done | done | done |].
  rewrite app_nil_l in Hrec.
  destruct Hrec as (ts & Hts & Hrec).
  destruct (Hparent (Monitor.process s1)) as (rc0 & p' & Hrc0).
  exists (<[Monitor.TIMESERIES := Monitor.VSeries ts]> rc0),
    (Monitor.mkMonitor p' (Some ts)), ts.
  split; [| split; [by rewrite lookup_insert_eq | split; [done |]]].
  - unfold bind at 1. rewrite Hrun.
    unfold Monitor.results_with, bind, Monitor.inProcess, lift.
    rewrite Hrc0. simpl. by rewrite Hts.
  - by exists ts.
Qed.

Lemma results_after_observations_witness :
  ∃ rc s' ts,
    (Monitor.observations [(0%Q, builtTwoNodes); (1%Q, afterInfection)] ;;
     Monitor.results) freshMonitor
    = (Returned rc, s')
    ∧ rc !! Monitor.TIMESERIES = Some (Monitor.VSeries ts)
    ∧ ts !! Monitor.OBSERVATIONS = Some [Monitor.Time 0; Monitor.Time 1].
Proof.
  destruct (results_after_observations (Monitor.plainResults ∅)
              (dom (loci builtTwoNodes)) (0%Q, builtTwoNodes)
              [(1%Q, afterInfection)] freshMonitor)
    as (rc & s' & ts & Hrun & Hrc & _ & Hrec).
  - intros p. by exists ∅, p.
  - reflexivity.
  - apply not_elem_of_dom. vm_compute. reflexivity.
  - repeat constructor.
  - exists rc, s', ts. split; [exact Hrun |]. split; [exact Hrc |].
    destruct Hrec as (ts' & Heq & _ & Htimes & _).
    injection Heq as <-. exact Htimes.
Defined.

(** X15: [build] posts its event last: when [time_delta] is missing it raises
    [KeyError] with nothing posted, and when the parent's build raises it
    raises the same exception without reading [time_delta]; either way the
    object is as the parent's build left it and [_timeSeries] is as it
    was. *)
Theorem monitor_build_failure (parent : Params → M Process unit)
    (params : Params) (s : Monitor.state) (p1 : Process) :
  (parent params (Monitor.process s) = (Returned tt, p1) →
   params !! Monitor.DELTA = None →
   Monitor.build_with parent params s
   = (Raised (KeyError Monitor.DELTA),
      Monitor.mkMonitor p1 (Monitor._timeSeries s)))
  ∧ (∀ ex, parent params (Monitor.process s) = (Raised ex, p1) →
       Monitor.build_with parent params s
       = (Raised ex, Monitor.mkMonitor p1 (Monitor._timeSeries s))).
Proof.
  split.
  - intros Hparent Hd.
    unfold Monitor.build_with, bind, Monitor.inProcess, lift, getitem.
    rewrite Hparent. simpl. by rewrite Hd.
  - intros ex Hparent.
    unfold Monitor.build_with, bind, Monitor.inProcess, lift.
    by rewrite Hparent.
Qed.

Lemma monitor_build_failure_witness :
  Monitor.build ∅ (Monitor.mkMonitor builtTwoNodes None)
  = (Raised (KeyError Monitor.DELTA), Monitor.mkMonitor builtTwoNodes None).
Proof.
  destruct (monitor_build_failure Monitor.plainBuild ∅
              (Monitor.mkMonitor builtTwoNodes None) builtTwoNodes)
    as [Hmissing _].
  apply Hmissing; reflexivity.
Defined.

(** X16: A monitor on a SEIR model: when the model has the loci of [SEIR.build]
    only, the store that the first observation creates has a sequence for
    the observation times and for the loci SE, SI, EXPOSED and INFECTED,
    and none for the SUSCEPTIBLE and REMOVED compartments. *)
Theorem monitor_of_seir_model (parent : Params → M Process unit)
    (params : Params) (s s1 : Process) (t : Q) (e : option element) :
  Forall (λ k, is_Some (params !! k)) seirParameters →
  parent params s = (Returned tt, s1) →
  loci s1 = ∅ →
  ∃ s' ts,
    SEIR.build_with parent params s = (Returned tt, s')
    ∧ Monitor.observe t e (Monitor.mkMonitor s' None)
      = (Returned tt, Monitor.mkMonitor s' (Some ts))
    ∧ (∀ k, k ∈ dom ts
            ↔ k ∈ [Monitor.OBSERVATIONS; SEIR.SE; SEIR.SI; SEIR.EXPOSED;
                   SEIR.INFECTED])
    ∧ ts !! SEIR.SUSCEPTIBLE = None
    ∧ ts !! SEIR.REMOVED = None.
Proof.
  intros Hall Hparent Hloci. unfold seirParameters in Hall.
  apply Forall_cons in Hall as [[pE HE] Hall].
  apply Forall_cons in Hall as [[pA HA] Hall].
  apply Forall_cons in Hall as [[pI HI] Hall].
  apply Forall_cons in Hall as [[pS HS] Hall].
  apply Forall_cons in Hall as [[pR HR] _].
  pose proof (build_run parent params s s1 pE pA pI pS pR HE HA HI HS HR
                Hparent) as Hbuild.
  set (s' := mkProcess _ _ _ _ _ _ _) in Hbuild.
  destruct (observe_first_run s' t e) as (ts & Hrun & Hdom).
  assert (∀ k, k ∈ dom ts
               ↔ k ∈ [Monitor.OBSERVATIONS; SEIR.SE; SEIR.SI; SEIR.EXPOSED;
                      SEIR.INFECTED]) as Hkeys.
  { intros k. rewrite Hdom. unfold s'. simpl. rewrite Hloci.
    rewrite !dom_insert_L, dom_empty_L.
    rewrite !elem_of_union, !elem_of_singleton, !elem_of_cons, elem_of_nil.
    rewrite elem_of_empty. tauto. }
  exists s', ts. split; [done |]. split; [done |]. split; [done |].
  split; apply not_elem_of_dom; rewrite Hkeys;
    rewrite !elem_of_cons, elem_of_nil; intros Hk;
    repeat (destruct Hk as [Hk | Hk]; [discriminate |]); done.
Qed.

Lemma monitor_of_seir_model_witness :
  ∃ s' ts,
    SEIR.build seirParams twoNodes = (Returned tt, s')
    ∧ Monitor.observe 0 None (Monitor.mkMonitor s' None)
      = (Returned tt, Monitor.mkMonitor s' (Some ts))
    ∧ ts !! SEIR.SUSCEPTIBLE = None.
Proof.
  destruct (monitor_of_seir_model SEIR.plainBuild seirParams twoNodes
              twoNodes 0 None) as (s' & ts & Hbuild & Hrun & _ & HS & _).
  - repeat (constructor; [eexists; vm_compute; reflexivity |]). constructor.
  - reflexivity.
  - reflexivity.
  - exists s', ts. split; [exact Hbuild |]. split; [exact Hrun | exact HS].
Defined.

(** X17: A monitor sees the course of the disease: with the node loci of
    EXPOSED and INFECTED tracked under their names, an observation before
    and one after [symptoms] at an EXPOSED node record, for the locus
    EXPOSED, a size and then one less and, for the locus INFECTED, a size
    and then one more. *)
Theorem observations_around_symptoms (p : Process) (s : Monitor.state)
    (t0 t t1 : Q) (n : node) :
  Monitor._timeSeries s = None →
  Monitor.OBSERVATIONS ∉ dom (loci p) →
  loci p !! SEIR.EXPOSED = Some (NodeLocus SEIR.EXPOSED) →
  loci p !! SEIR.INFECTED = Some (NodeLocus SEIR.INFECTED) →
  compartmentOf p !! n = Some SEIR.EXPOSED →
  ∃ s' ts (i j : nat),
    Monitor.observations [(t0, p); (t1, (SEIR.symptoms t n p).2)] s
    = (Returned tt, s')
    ∧ Monitor._timeSeries s' = Some ts
    ∧ ts !! Monitor.OBSERVATIONS = Some [Monitor.Time t0; Monitor.Time t1]
    ∧ ts !! SEIR.EXPOSED = Some [Monitor.Size (S i); Monitor.Size i]
    ∧ ts !! SEIR.INFECTED = Some [Monitor.Size j; Monitor.Size (S j)].
Proof.
  intros Hreset Hobs HE HI Hn.
  destruct (observations_recorded (dom (loci p))
              [(t0, p); (t1, (SEIR.symptoms t n p).2)] [] s)
    as (s' & Hrun & Hrec); [done | by repeat constructor | done |].
  rewrite app_nil_l in Hrec.
  destruct Hrec as (ts & Hts & _ & Htimes & Hsizes).
  pose proof (node_locus_size_insert p n _ SEIR.INFECTED SEIR.EXPOSED Hn)
    as HsE.
  pose proof (node_locus_size_insert p n _ SEIR.INFECTED SEIR.INFECTED Hn)
    as HsI.
  rewrite bool_decide_eq_true_2 in HsE by done.
  rewrite bool_decide_eq_false_2 in HsE by discriminate.
  rewrite bool_decide_eq_false_2 in HsI by discriminate.
  rewrite bool_decide_eq_true_2 in HsI by done.
  exists s', ts,
    (locusLen (SEIR.symptoms t n p).2 (NodeLocus SEIR.EXPOSED)),
    (locusLen p (NodeLocus SEIR.INFECTED)).
  split; [done |]. split; [done |]. split; [done |]. split.
  - rewrite (Hsizes SEIR.EXPOSED) by (apply elem_of_dom; by eexists).
    simpl. unfold sizeOf. simpl. rewrite HE. do 3 f_equal.
    unfold SEIR.symptoms, changeCompartment, modify. simpl. lia.
  - rewrite (Hsizes SEIR.INFECTED) by (apply elem_of_dom; by eexists).
    simpl. unfold sizeOf. simpl. rewrite HI. do 2 f_equal. f_equal.
    f_equal. unfold SEIR.symptoms, changeCompartment, modify. simpl. lia.
Qed.

Lemma observations_around_symptoms_witness :
  ∃ s' ts (i j : nat),
    Monitor.observations
      [(0%Q, afterInfection); (1%Q, (SEIR.symptoms (1 # 2) 2%nat afterInfection).2)]
      freshMonitor
    = (Returned tt, s')
    ∧ Monitor._timeSeries s' = Some ts
    ∧ ts !! SEIR.EXPOSED = Some [Monitor.Size (S i); Monitor.Size i]
    ∧ ts !! SEIR.INFECTED = Some [Monitor.Size j; Monitor.Size (S j)].
Proof.
  destruct (observations_around_symptoms afterInfection freshMonitor 0
              (1 # 2) 1 2%nat)
    as (s' & ts & i & j & Hrun & Hts & _ & HE & HI).
  - reflexivity.
  - apply not_elem_of_dom. vm_compute. reflexivity.
  - vm_compute. reflexivity.
  - vm_compute. reflexivity.
  - vm_compute. reflexivity.
  - exists s', ts, i, j. repeat split; assumption.
Defined.

End Monitor_further.
